(** * votekit: ballot generators, profile folding and cleaning

    A shallow embedding of [src/votekit/ballot_generator.py] and
    [src/votekit/cleaning.py].

    - Python values are modelled by small inductive types; exceptions by a
      [result] monad; the random source of numpy by an explicit generator
      state threaded through every draw.
    - A Python [dict] is an association list in insertion order (the order
      [keys()], [items()] and [values()] iterate in).
    - A Python [set] of strings is a [gset string].
    - A [Fraction] is a canonical rational [Qc]. *)

From Stdlib Require Import QArith Qcanon Qround Qabs Lqa.
From stdpp Require Import numbers strings gmap list.

Open Scope string_scope.
Open Scope list_scope.

(** ** Exceptions *)

Inductive pyerror :=
  | TypeError
  | KeyError
  | ValueError
  | IndexError
  | ZeroDivisionError.

Inductive result (A : Type) :=
  | Ok (a : A)
  | Err (e : pyerror).
Arguments Ok {A} a.
Arguments Err {A} e.

Definition is_Ok {A} (r : result A) : bool :=
  match r with Ok _ => true | Err _ => false end.

#[global] Instance pyerror_eq_dec : EqDecision pyerror.
Proof. solve_decision. Defined.

#[global] Instance result_eq_dec `{EqDecision A} : EqDecision (result A).
Proof. solve_decision. Defined.

#[global] Instance result_ret : MRet result := fun _ a => Ok a.
#[global] Instance result_bind : MBind result := fun _ _ f r =>
  match r with Ok a => f a | Err e => Err e end.

(** [d[k]]: a missing key raises [KeyError]. *)
Definition from_key {A} (o : option A) : result A :=
  match o with Some a => Ok a | None => Err KeyError end.

(** Monadic traversal, left to right, as a list comprehension evaluates. *)
Fixpoint result_mapM {A B} (f : A → result B) (l : list A) : result (list B) :=
  match l with
  | [] => Ok []
  | a :: l' => b ← f a; bs ← result_mapM f l'; Ok (b :: bs)
  end.

(** ** Values that occur in a ranking

    A ranking is a list whose elements are either candidate names ([str],
    hashable, iterating over its one-character substrings) or sets of
    strings ([set], not hashable, iterating over its members). *)

Inductive pyval :=
  | PyStr (s : string)
  | PySet (xs : gset string).

#[global] Instance pyval_eq_dec : EqDecision pyval.
Proof. solve_decision. Defined.

(** [hash(v)]: a [set] is unhashable. *)
Definition hashable (v : pyval) : bool :=
  match v with PyStr _ => true | PySet _ => false end.

(** Iterating a [str] yields its characters as one-character strings. *)
Fixpoint str_iter (s : string) : list string :=
  match s with
  | EmptyString => []
  | String a s' => String a EmptyString :: str_iter s'
  end.

(** [set(v)] *)
Definition py_set (v : pyval) : gset string :=
  match v with
  | PyStr s => list_to_set (str_iter s)
  | PySet xs => xs
  end.

(** A tuple is hashable when all its elements are. *)
Definition tuple_hashable (t : list pyval) : bool := forallb hashable t.

(** ** Dictionaries in insertion order *)

Section Dict.
Context {K V : Type} `{EqDecision K}.

Fixpoint dict_get (k : K) (d : list (K * V)) : option V :=
  match d with
  | [] => None
  | (k', v) :: d' => if decide (k = k') then Some v else dict_get k d'
  end.

(** [d[k] = v]: an existing key keeps its position, a new one goes last. *)
Fixpoint dict_set (k : K) (v : V) (d : list (K * V)) : list (K * V) :=
  match d with
  | [] => [(k, v)]
  | (k', v') :: d' =>
      if decide (k = k') then (k', v) :: d' else (k', v') :: dict_set k v d'
  end.

Definition dict_keys (d : list (K * V)) : list K := fst <$> d.
Definition dict_values (d : list (K * V)) : list V := snd <$> d.
End Dict.

(** ** Numbers

    [int] and the fractional types ([float], [Fraction]).  A fractional
    value is modelled by the exact rational it denotes. *)

Inductive pynum :=
  | PyInt (z : Z)
  | PyFrac (q : Q).

(** [n * x] for an [int] n: the product with an [int] is an [int], the
    product with a fractional value is fractional, whatever its value. *)
Definition py_mul_int (n : Z) (x : pynum) : pynum :=
  match x with
  | PyInt z => PyInt (n * z)
  | PyFrac q => PyFrac (inject_Z n * q)
  end.

(** [int(x)]: truncation toward zero. *)
Definition py_int (x : pynum) : Z :=
  match x with
  | PyInt z => z
  | PyFrac q => Z.quot (Qnum q) (Zpos (Qden q))
  end.

(** [round(x)]: nearest integer, ties to the even one. *)
Definition round_half_even (q : Q) : Z :=
  let f := Qfloor q in
  match Qcompare (q - inject_Z f) (1 # 2) with
  | Lt => f
  | Gt => f + 1
  | Eq => if Z.even f then f else f + 1
  end.

Definition py_round (x : pynum) : Z :=
  match x with
  | PyInt z => z
  | PyFrac q => round_half_even q
  end.

(** [range(x)]: the number of iterations; only an [int] is accepted. *)
Definition py_range (x : pynum) : result nat :=
  match x with
  | PyInt z => Ok (Z.to_nat z)
  | PyFrac _ => Err TypeError
  end.

(** [Fraction(count)] *)
Definition Fraction (z : Z) : Qc := Q2Qc (inject_Z z).

(** ** Ballot and PreferenceProfile *)

(** Modelled from the spec: the class [Ballot] of [votekit/ballot.py],
    which is not among the sources.  A ranking is a sequence of tied
    blocks (sets of candidates), the weight an exact rational defaulting
    to 1, scores a map from candidates to exact rationals; equality is
    structural over all fields. *)
Record Ballot := mkBallot {
  ranking : list (gset string);
  weight : Qc;
  voter_set : gset string;
  id : option string;
  scores : list (string * Qc)
}.

#[global] Instance Ballot_eq_dec : EqDecision Ballot.
Proof. solve_decision. Defined.

(** [Ballot(ranking=rank, weight=w)] *)
Definition Ballot_new (rank : list (gset string)) (w : Qc) : Ballot :=
  {| ranking := rank; weight := w; voter_set := ∅; id := None; scores := [] |}.

(** Modelled from the spec: the class [PreferenceProfile] of
    [votekit/profile.py], which is not among the sources: an ordered
    collection of ballots over a fixed set of candidates. *)
Record PreferenceProfile := mkProfile {
  ballots : list Ballot;
  candidates : gset string
}.

#[global] Instance PreferenceProfile_eq_dec : EqDecision PreferenceProfile.
Proof. solve_decision. Defined.

(** The candidates mentioned by a ballot's ranking and scores. *)
Definition ballot_mentions (b : Ballot) : gset string :=
  ⋃ (ranking b) ∪ list_to_set (dict_keys (scores b)).

(** Modelled from the spec: [PreferenceProfile(ballots=.., candidates=..)];
    when no candidates are supplied they are the union of all candidates
    mentioned across the ballots. *)
Definition PreferenceProfile_new (bs : list Ballot)
    (cands : option (list string)) : PreferenceProfile :=
  {| ballots := bs;
     candidates := match cands with
                   | Some l => list_to_set l
                   | None => ⋃ (ballot_mentions <$> bs)
                   end |}.

Definition get_ballots (pp : PreferenceProfile) : list Ballot := ballots pp.
Definition get_candidates (pp : PreferenceProfile) : list string :=
  elements (candidates pp).

Definition total_weight (pp : PreferenceProfile) : Qc :=
  foldr Qcplus 0%Qc (weight <$> ballots pp).

(** ** Ballot_Generator.ballot_pool_to_profile *)

(** One iteration of the counting loop.  Looking the tuple up hashes it,
    which fails on an unhashable element. *)
Definition count_ranking (ranking_counts : list (list pyval * nat))
    (ranking : list pyval) : result (list (list pyval * nat)) :=
  let tuple_rank := ranking in
  if tuple_hashable tuple_rank then
    Ok (dict_set tuple_rank
          (match dict_get tuple_rank ranking_counts with
           | Some c => c + 1
           | None => 1
           end)%nat
          ranking_counts)
  else Err TypeError.

Fixpoint count_rankings (ballot_pool : list (list pyval))
    (ranking_counts : list (list pyval * nat))
    : result (list (list pyval * nat)) :=
  match ballot_pool with
  | [] => Ok ranking_counts
  | ranking :: rest =>
      ranking_counts' ← count_ranking ranking_counts ranking;
      count_rankings rest ranking_counts'
  end.

(** The body of the second loop: one ballot per counted ranking. *)
Definition ballot_of_count (item : list pyval * nat) : Ballot :=
  let '(ranking, count) := item in
  let rank := py_set <$> ranking in
  Ballot_new rank (Fraction (Z.of_nat count)).

Definition ballot_pool_to_profile (ballot_pool : list (list pyval))
    (candidates : list string) : result PreferenceProfile :=
  ranking_counts ← count_rankings ballot_pool [];
  let ballot_list := ballot_of_count <$> ranking_counts in
  Ok (PreferenceProfile_new ballot_list (Some candidates)).

(** A pool of rankings of candidate names. *)
Definition str_pool (pool : list (list string)) : list (list pyval) :=
  map (map PyStr) pool.

(** Folding again: the pool is the list of the rankings of the profile's
    ballots, each block being a [set]. *)
Definition refold (pp : PreferenceProfile) : result PreferenceProfile :=
  ballot_pool_to_profile ((fun b => PySet <$> ranking b) <$> get_ballots pp)
                         (get_candidates pp).

(** ** Counting, as a pure function *)

Definition count_of {K} `{EqDecision K} (k : K) (d : list (K * nat)) : nat :=
  default 0%nat (dict_get k d).

Definition counts (ballot_pool : list (list pyval))
    (ranking_counts : list (list pyval * nat)) : list (list pyval * nat) :=
  fold_left (fun d r => dict_set r (count_of r d + 1)%nat d)
            ballot_pool ranking_counts.

Definition occurrences (k : list pyval) (ballot_pool : list (list pyval)) : nat :=
  count_occ (decide_rel (=)) ballot_pool k.

(** The keys under which a pool is counted: one for each ballot of the
    folded profile, in the order of the ballots. *)
Definition ranking_keys (ballot_pool : list (list pyval)) : list (list pyval) :=
  dict_keys (counts ballot_pool []).

(** ** cleaning.remove_empty_ballots

    Ballots are objects: the store maps an address (an index) to the
    object's state, a profile object holds the addresses of its ballots,
    and [deepcopy] allocates. *)

Record ProfileObj := mkProfileObj {
  ballot_refs : list nat;
  obj_candidates : gset string
}.

#[global] Instance ProfileObj_eq_dec : EqDecision ProfileObj.
Proof. solve_decision. Defined.

(** The profile an object denotes in a store. *)
Definition view (h : list Ballot) (pp : ProfileObj) : option PreferenceProfile :=
  bs ← mapM (fun r => h !! r) (ballot_refs pp);
  Some (mkProfile bs (obj_candidates pp)).

(** [deepcopy(ballot)]: a fresh object with the same state. *)
Definition deepcopy (h : list Ballot) (r : nat) : option (nat * list Ballot) :=
  b ← h !! r;
  Some (length h, h ++ [b]).

(** [[deepcopy(ballot) for ballot in pp.get_ballots() if ballot.ranking]]:
    a list is true when it is not empty. *)
Fixpoint copy_nonempty (h : list Ballot) (refs : list nat)
    : option (list nat * list Ballot) :=
  match refs with
  | [] => Some ([], h)
  | r :: refs' =>
      b ← h !! r;
      if bool_decide (ranking b ≠ []) then
        '(r', h1) ← deepcopy h r;
        '(rs, h2) ← copy_nonempty h1 refs';
        Some (r' :: rs, h2)
      else copy_nonempty h refs'
  end.

(** The constructor on objects; see [PreferenceProfile_new]. *)
Definition ProfileObj_new (h : list Ballot) (refs : list nat)
    (cands : option (list string)) : option ProfileObj :=
  bs ← mapM (fun r => h !! r) refs;
  Some (mkProfileObj refs (candidates (PreferenceProfile_new bs cands))).

Definition remove_empty_ballots (h : list Ballot) (pp : ProfileObj)
    (keep_candidates : bool) : option (ProfileObj * list Ballot) :=
  '(ballots_nonempty, h1) ← copy_nonempty h (ballot_refs pp);
  pp_clean ←
    (if keep_candidates then
       let old_cands := elements (obj_candidates pp) in
       ProfileObj_new h1 ballots_nonempty (Some old_cands)
     else ProfileObj_new h1 ballots_nonempty None);
  Some (pp_clean, h1).

(** ** Random draws

    A computation that draws from numpy's generator takes the generator
    state and returns a value with the next state, or raises. *)

Definition rand (G A : Type) : Type := G → result (A * G).

Definition rand_ret {G A} (a : A) : rand G A := fun g => Ok (a, g).

Definition rand_bind {G A B} (m : rand G A) (k : A → rand G B) : rand G B :=
  fun g => match m g with
           | Ok (a, g') => k a g'
           | Err e => Err e
           end.

Definition lift {G A} (r : result A) : rand G A :=
  fun g => match r with Ok a => Ok (a, g) | Err e => Err e end.

Notation "x <~ m ;; k" := (rand_bind m (fun x => k))
  (at level 100, m at next level, right associativity).

(** [for _ in range(n): pool.append(body)] *)
Fixpoint rand_repeat {G A} (n : nat) (body : rand G A) : rand G (list A) :=
  match n with
  | O => rand_ret []
  | S n' => a <~ body;; rest <~ rand_repeat n' body;; rand_ret (a :: rest)
  end.

(** [for x in xs: pool.append(body(x))] *)
Fixpoint rand_for {G A B} (xs : list A) (body : A → rand G B) : rand G (list B) :=
  match xs with
  | [] => rand_ret []
  | x :: xs' => b <~ body x;; rest <~ rand_for xs' body;; rand_ret (b :: rest)
  end.

(** [seq[i]]: an index out of range raises [IndexError]. *)
Definition from_index {A} (o : option A) : result A :=
  match o with Some a => Ok a | None => Err IndexError end.

(** ** itertools.permutations(iterable, r) *)

(** Every element with the elements at the other positions. *)
Fixpoint picks {A} (l : list A) : list (A * list A) :=
  match l with
  | [] => []
  | x :: l' => (x, l') :: map (fun '(y, rest) => (y, x :: rest)) (picks l')
  end.

Fixpoint it_permutations {A} (r : nat) (l : list A) : list (list A) :=
  match r with
  | O => [[]]
  | S r' =>
      flat_map (fun '(x, rest) => map (cons x) (it_permutations r' rest))
               (picks l)
  end.

(** ** The generators *)

Module Ballot_Generator.
Record t := mk {
  number_of_ballots : Z;
  candidates : list string;
  ballot_length : nat
}.

(** [__init__] *)
Definition init (number_of_ballots : Z) (candidates : list string)
    (ballot_length : option nat) : t :=
  {| number_of_ballots := number_of_ballots;
     ballot_length := match ballot_length with
                      | Some l => l
                      | None => length candidates
                      end;
     candidates := candidates |}.
End Ballot_Generator.

(** A call of [ballot_pool_to_profile] as Python binds it: both positional
    parameters are required, and [None] stands for one that the call site
    does not pass. *)
Definition call_ballot_pool_to_profile (ballot_pool : option (list (list pyval)))
    (candidates : option (list string)) : result PreferenceProfile :=
  match ballot_pool, candidates with
  | Some pool, Some cands => ballot_pool_to_profile pool cands
  | _, _ => Err TypeError
  end.

Module IAC.
Import Ballot_Generator.
Section Draws.
Context {G : Type}.
(** [np.random.dirichlet(alpha)] *)
Variable dirichlet : list Z → rand G (list Q).
(** [np.random.choice(a, size, p=p)] *)
Variable choice : list nat → nat → list Q → rand G (list nat).

Definition perm_rankings (self : t) : list (list string) :=
  it_permutations (ballot_length self) (candidates self).

(** The body of the sampling loop. *)
Definition draw (self : t) (draw_probabilites : list Q)
    : rand G (list string) :=
  drawn <~ choice (seq 0 6) 1 draw_probabilites;;
  index <~ lift (from_index (drawn !! 0%nat));;
  lift (from_index (perm_rankings self !! index)).

Definition ballot_pool (self : t) : rand G (list (list string)) :=
  draw_probabilites <~
    dirichlet (replicate (length (perm_rankings self)) 1%Z);;
  rand_repeat (Z.to_nat (number_of_ballots self))
              (draw self draw_probabilites).

Definition generate_ballots (self : t) : rand G PreferenceProfile :=
  pool <~ ballot_pool self;;
  lift (call_ballot_pool_to_profile (Some (str_pool pool))
                                    (Some (candidates self))).
End Draws.
End IAC.

Module PlackettLuce.
Record t := mk {
  base : Ballot_Generator.t;
  pref_interval_by_slate : list (string * list (string * Q));
  slate_voter_prop : list (string * pynum)
}.

(** [__init__]: the parent's [__init__], then two assignments. *)
Definition init (pref_interval_by_slate : list (string * list (string * Q)))
    (slate_voter_prop : list (string * pynum))
    (number_of_ballots : Z) (candidates : list string)
    (ballot_length : option nat) : result t :=
  let base := Ballot_Generator.init number_of_ballots candidates ballot_length in
  Ok {| base := base;
        pref_interval_by_slate := pref_interval_by_slate;
        slate_voter_prop := slate_voter_prop |}.

Import Ballot_Generator.
Section Draws.
Context {G : Type}.
(** [choice(a, size, p=p, replace=False)] *)
Variable choice : list string → nat → list Q → rand G (list string).

(** The number of voters of a bloc. *)
Definition num_ballots_race (self : PlackettLuce.t) (prop : pynum) : Z :=
  py_int (py_mul_int (number_of_ballots (base self)) prop).

(** The body of the loop over the blocs. *)
Definition draw_race (self : PlackettLuce.t) (race : string)
    : rand G (list (list string)) :=
  prop <~ lift (from_key (dict_get race (slate_voter_prop self)));;
  pref_interval_dict <~
    lift (from_key (dict_get race (pref_interval_by_slate self)));;
  cand_support_vec <~
    lift (result_mapM (fun cand => from_key (dict_get cand pref_interval_dict))
                      (candidates (base self)));;
  rand_repeat (Z.to_nat (num_ballots_race self prop))
              (choice (candidates (base self)) (ballot_length (base self))
                      cand_support_vec).

Definition ballot_pool (self : PlackettLuce.t) : rand G (list (list string)) :=
  per_race <~ rand_for (dict_keys (slate_voter_prop self)) (draw_race self);;
  rand_ret (concat per_race).

Definition generate_ballots (self : PlackettLuce.t) : rand G PreferenceProfile :=
  ballots_list <~ ballot_pool self;;
  lift (call_ballot_pool_to_profile (Some (str_pool ballots_list))
                                    (Some (candidates (base self)))).
End Draws.

(** What the spec asks of a configuration: the bloc proportions sum to
    1 and every bloc has a preference interval. *)
Definition prop_value (x : pynum) : Q :=
  match x with PyInt z => inject_Z z | PyFrac q => q end.

Definition props_sum (slate_voter_prop : list (string * pynum)) : Q :=
  foldr Qplus 0%Q (prop_value <$> dict_values slate_voter_prop).

Definition spec_valid_config
    (pref_interval_by_slate : list (string * list (string * Q)))
    (slate_voter_prop : list (string * pynum)) : bool :=
  Qeq_bool (props_sum slate_voter_prop) 1
  && forallb (fun race => bool_decide (is_Some (dict_get race pref_interval_by_slate)))
             (dict_keys slate_voter_prop).
End PlackettLuce.

Module BradleyTerry.
(** The loop over [j in range(i, len(ranking))]: [ranking_from_i] is
    the ranking from position [i] on. *)
Fixpoint loop_j (cand_support_dict : list (string * Qc))
    (greater_cand_support : Qc) (ranking_from_i : list string) (prob : Qc)
    : result Qc :=
  match ranking_from_i with
  | [] => Ok prob
  | cand_j :: rest =>
      cand_support ← from_key (dict_get cand_j cand_support_dict);
      if decide (greater_cand_support + cand_support = 0)%Qc
      then Err ZeroDivisionError
      else loop_j cand_support_dict greater_cand_support rest
             (prob * (greater_cand_support
                      / (greater_cand_support + cand_support)))%Qc
  end.

(** The loop over [i in range(len(ranking))]. *)
Fixpoint loop_i (cand_support_dict : list (string * Qc))
    (ranking_from_i : list string) (prob : Qc) : result Qc :=
  match ranking_from_i with
  | [] => Ok prob
  | cand_i :: rest =>
      greater_cand_support ← from_key (dict_get cand_i cand_support_dict);
      prob' ← loop_j cand_support_dict greater_cand_support (cand_i :: rest) prob;
      loop_i cand_support_dict rest prob'
  end.

Definition ranking_prob (cand_support_dict : list (string * Qc))
    (ranking : list string) : result Qc :=
  loop_i cand_support_dict ranking 1%Qc.

Fixpoint calc_prob_loop (cand_support_dict : list (string * Qc))
    (permutations : list (list string))
    (ranking_to_prob : list (list string * Qc))
    : result (list (list string * Qc)) :=
  match permutations with
  | [] => Ok ranking_to_prob
  | ranking :: rest =>
      prob ← ranking_prob cand_support_dict ranking;
      calc_prob_loop cand_support_dict rest (dict_set ranking prob ranking_to_prob)
  end.

(** [_calc_prob]; the rankings are tuples of candidate names. *)
Definition _calc_prob (permutations : list (list string))
    (cand_support_dict : list (string * Qc))
    : result (list (list string * Qc)) :=
  calc_prob_loop cand_support_dict permutations [].

(** The probability in the spec's words: the product, over the pairs
    of positions i < j, of support(i) / (support(i) + support(j)). *)
Fixpoint spec_pairwise (supports : list Qc) : Qc :=
  match supports with
  | [] => 1
  | s :: rest =>
      foldr Qcmult 1 ((fun s' => s / (s + s')) <$> rest) * spec_pairwise rest
  end%Qc.
End BradleyTerry.

Module AlternatingCrossover.
Record t := mk {
  base : Ballot_Generator.t;
  slate_to_candidate : list (string * list string);
  pref_interval_by_slate : list (string * list (string * Q));
  slate_voter_prop : list (string * pynum);
  slate_crossover_rate : list (string * list (string * pynum))
}.

(** [[item for sublist in zip(xs, ys) for item in sublist]] *)
Fixpoint alternate (xs ys : list string) : list string :=
  match xs, ys with
  | x :: xs', y :: ys' => x :: y :: alternate xs' ys'
  | _, _ => []
  end.

Import Ballot_Generator.
Section Draws.
Context {G : Type}.
(** [choice(a, p=p, replace=False)]: without a size, one element. *)
Variable choice : list string → list Q → rand G string.

(** The ballot built from the two drawn lists. *)
Definition make_ballot (self : AlternatingCrossover.t)
    (slate opposing_slate : string) (bloc_cands opposing_cands : list string)
    : list string :=
  let ballot :=
    if decide (slate ≠ opposing_slate)
    then alternate opposing_cands bloc_cands
    else bloc_cands in
  take (ballot_length (base self)) ballot.

(** The body of the innermost loop; [bloc_cands] and [opposing_cands]
    are assigned in it and read by the next iteration. *)
Definition draw (self : AlternatingCrossover.t)
    (slate opposing_slate : string) (pref_interval_dict : list (string * Q))
    (cands : list string * list string)
    : rand G (list string * (list string * list string)) :=
  let '(bloc_cands, opposing_cands) := cands in
  pref_for_opposing <~
    lift (result_mapM (fun cand => from_key (dict_get cand pref_interval_dict))
                      opposing_cands);;
  pref_for_bloc <~
    lift (result_mapM (fun cand => from_key (dict_get cand pref_interval_dict))
                      bloc_cands);;
  drawn_bloc <~ choice (candidates (base self)) pref_for_bloc;;
  let bloc_cands := str_iter drawn_bloc in
  drawn_opposing <~ choice (candidates (base self)) pref_for_opposing;;
  let opposing_cands := str_iter drawn_opposing in
  rand_ret (make_ballot self slate opposing_slate bloc_cands opposing_cands,
            (bloc_cands, opposing_cands)).

Fixpoint draws (self : AlternatingCrossover.t)
    (slate opposing_slate : string) (pref_interval_dict : list (string * Q))
    (n : nat) (cands : list string * list string)
    : rand G (list (list string)) :=
  match n with
  | O => rand_ret []
  | S n' =>
      drawn <~ draw self slate opposing_slate pref_interval_dict cands;;
      rest <~ draws self slate opposing_slate pref_interval_dict n' (snd drawn);;
      rand_ret (fst drawn :: rest)
  end.

(** The body of the loop over the entries of the bloc's crossover
    mapping. *)
Definition draw_pairing (self : AlternatingCrossover.t) (slate : string)
    (num_ballots_race : Z) (crossover_dict : list (string * pynum))
    (pref_interval_dict : list (string * Q)) (opposing_slate : string)
    : rand G (list (list string)) :=
  crossover_rate <~ lift (from_key (dict_get opposing_slate crossover_dict));;
  let crossover_ballots := py_mul_int num_ballots_race crossover_rate in
  opposing_cands <~
    lift (from_key (dict_get opposing_slate (slate_to_candidate self)));;
  bloc_cands <~ lift (from_key (dict_get slate (slate_to_candidate self)));;
  n <~ lift (py_range crossover_ballots);;
  draws self slate opposing_slate pref_interval_dict n
        (bloc_cands, opposing_cands).

Definition num_ballots_race (self : AlternatingCrossover.t) (prop : pynum) : Z :=
  py_int (py_mul_int (number_of_ballots (base self)) prop).

(** The body of the loop over the blocs: the ballots of the bloc,
    one group for each entry of its crossover mapping. *)
Definition draw_slate (self : AlternatingCrossover.t) (slate : string)
    : rand G (list (list (list string))) :=
  prop <~ lift (from_key (dict_get slate (slate_voter_prop self)));;
  crossover_dict <~
    lift (from_key (dict_get slate (slate_crossover_rate self)));;
  pref_interval_dict <~
    lift (from_key (dict_get slate (pref_interval_by_slate self)));;
  rand_for (dict_keys crossover_dict)
           (draw_pairing self slate (num_ballots_race self prop)
                         crossover_dict pref_interval_dict).

Definition ballot_pool (self : AlternatingCrossover.t)
    : rand G (list (list string)) :=
  per_slate <~ rand_for (dict_keys (slate_voter_prop self)) (draw_slate self);;
  rand_ret (concat (concat per_slate)).

Definition generate_ballots (self : AlternatingCrossover.t)
    : rand G PreferenceProfile :=
  ballots_list <~ ballot_pool self;;
  lift (call_ballot_pool_to_profile (Some (str_pool ballots_list))
                                    (Some (candidates (base self)))).
End Draws.
End AlternatingCrossover.

Module OneDimSpatial.
Import Ballot_Generator.

(** [a < b] on two arrays used as a truth value: the comparison is
    elementwise, and only an array of one element has a truth value. *)
Definition array_lt (a b : list Q) : result bool :=
  match a, b with
  | [x], [y] => Ok (negb (Qle_bool y x))
  | _, _ => Err ValueError
  end.

(** [sorted(d, key=d.get)]: a stable sort of the keys of [d] that
    compares the values by [<] only. *)
Fixpoint insert_by (c : string) (v : list Q)
    (sorted : list (string * list Q)) : result (list (string * list Q)) :=
  match sorted with
  | [] => Ok [(c, v)]
  | (c', v') :: rest =>
      less ← array_lt v' v;
      if (less : bool)
      then (rest' ← insert_by c v rest; Ok ((c', v') :: rest'))
      else Ok ((c, v) :: (c', v') :: rest)
  end.

Fixpoint sort_items (items : list (string * list Q))
    : result (list (string * list Q)) :=
  match items with
  | [] => Ok []
  | (c, v) :: rest => sorted ← sort_items rest; insert_by c v sorted
  end.

Definition sorted_by_value (d : list (string * list Q)) : result (list string) :=
  items ← sort_items d;
  Ok (dict_keys items).

Section Draws.
Context {G : Type}.
(** [np.random.normal(loc, scale, size)] *)
Variable normal : Q → Q → Z → rand G (list Q).

(** [{c: np.random.normal(1, 0, len(candidates)) for c in candidates}] *)
Fixpoint candidate_positions (n : Z) (cands : list string)
    (d : list (string * list Q)) : rand G (list (string * list Q)) :=
  match cands with
  | [] => rand_ret d
  | c :: rest =>
      v <~ normal 1 0 n;;
      candidate_positions n rest (dict_set c v d)
  end.

(** The body of the loop over the voters. *)
Definition voter_ranking (candidate_position_dict : list (string * list Q))
    (vp : Q) : result (list string) :=
  let distance_dict :=
    map (fun cv : string * list Q =>
           (fst cv, map (fun x => Qabs (x - vp)) (snd cv)))
        candidate_position_dict in
  sorted_by_value distance_dict.

Definition ballot_pool (self : t) : rand G (list (list string)) :=
  candidate_position_dict <~
    candidate_positions (Z.of_nat (length (candidates self)))
                        (candidates self) [];;
  voter_positions <~ normal 1 0 (number_of_ballots self);;
  lift (result_mapM (voter_ranking candidate_position_dict) voter_positions).

(** The last line passes the pool alone. *)
Definition generate_ballots (self : t) : rand G PreferenceProfile :=
  pool <~ ballot_pool self;;
  lift (call_ballot_pool_to_profile (Some (str_pool pool)) None).
End Draws.
End OneDimSpatial.

(** ** Sample draws and configurations

    Deterministic stand-ins for numpy's draws, with a generator state
    that carries nothing, and the configurations the examples run on. *)

Module Sample.
(** A [choice] that returns the first [size] elements. *)
Definition choice_first (a : list string) (size : nat) (p : list Q)
    : rand unit (list string) :=
  fun g => Ok (take size a, g).

(** A [choice] without a size that returns the first element. *)
Definition choice_head (a : list string) (p : list Q) : rand unit string :=
  fun g => match a with
           | c :: _ => Ok (c, g)
           | [] => Err ValueError
           end.

(** A [choice] over indices that checks, as numpy does, that [a] and
    [p] have the same size, and returns the first index. *)
Definition choice_index (a : list nat) (size : nat) (p : list Q)
    : rand unit (list nat) :=
  fun g => if decide (length a = length p)
           then Ok (take size a, g)
           else Err ValueError.

(** A [dirichlet] that returns the uniform vector. *)
Definition dirichlet_uniform (alpha : list Z) : rand unit (list Q) :=
  fun g => Ok (replicate (length alpha) (1 # Pos.of_nat (length alpha)), g).

(** A [normal] with scale 0: every sample is the mean. *)
Definition normal_mean (loc scale : Q) (size : Z) : rand unit (list Q) :=
  fun g => Ok (replicate (Z.to_nat size) loc, g).

Definition two_candidates : Ballot_Generator.t :=
  Ballot_Generator.init 1 ["a"; "b"] None.

Definition three_candidates : Ballot_Generator.t :=
  Ballot_Generator.init 4 ["a"; "b"; "c"] (Some 2%nat).

Definition one_candidate : Ballot_Generator.t :=
  Ballot_Generator.init 1 ["a"] None.

(** Five ballots, a bloc of three quarters and one of a quarter. *)
Definition plackett_luce : PlackettLuce.t :=
  PlackettLuce.mk (Ballot_Generator.init 5 ["a"; "b"] (Some 2%nat))
    [("X", [("a", 1 # 2); ("b", 1 # 2)]);
     ("Y", [("a", 1 # 4); ("b", 3 # 4)])]
    [("X", PyFrac (3 # 4)); ("Y", PyFrac (1 # 4))].

(** Four ballots, one bloc; the candidate has a one-letter name. *)
Definition crossover (rates : list (string * pynum)) : AlternatingCrossover.t :=
  AlternatingCrossover.mk (Ballot_Generator.init 4 ["a"] None)
    [("A", ["a"]); ("B", ["a"])]
    [("A", [("a", 1%Q)])]
    [("A", PyInt 1)]
    [("A", rates)].

(** A store with three ballots, the second without a ranking. *)
Definition store : list Ballot :=
  [Ballot_new [{["a"]}; {["b"]}] 1%Qc;
   Ballot_new [] 1%Qc;
   Ballot_new [{["b"]}] (Fraction 2)].

Definition profile : ProfileObj :=
  mkProfileObj [0; 1; 2]%nat {["a"; "b"; "c"]}.
End Sample.

(** ** The remaining generators *)

(** [seq[i]] for an [int] index: a negative index counts from the end,
    an index out of range raises [IndexError]. *)
Definition py_getitem {A} (l : list A) (i : Z) : result A :=
  if decide (0 ≤ i)%Z then from_index (l !! Z.to_nat i)
  else if decide (0 ≤ Z.of_nat (length l) + i)%Z
       then from_index (l !! Z.to_nat (Z.of_nat (length l) + i))
       else Err IndexError.

Module IC.
Import Ballot_Generator.
Section Draws.
Context {G : Type}.
(** [random.randint(a, b)] *)
Variable randint : Z → Z → rand G Z.

Definition perm_rankings (self : t) : list (list string) :=
  it_permutations (ballot_length self) (candidates self).

(** The body of the sampling loop. *)
Definition draw (self : t) : rand G (list string) :=
  index <~ randint 0 (Z.of_nat (length (perm_rankings self)) - 1);;
  lift (py_getitem (perm_rankings self) index).

Definition ballot_pool (self : t) : rand G (list (list string)) :=
  rand_repeat (Z.to_nat (number_of_ballots self)) (draw self).

Definition generate_ballots (self : t) : rand G PreferenceProfile :=
  pool <~ ballot_pool self;;
  lift (call_ballot_pool_to_profile (Some (str_pool pool))
                                    (Some (candidates self))).
End Draws.
End IC.

(** [BradleyTerry.generate_ballots]; the [print] of the list leaves no
    trace in the result and is left out. *)
Module BradleyTerryDraws.
Record t := mk {
  base : Ballot_Generator.t;
  pref_interval_by_slate : list (string * list (string * Qc));
  slate_voter_prop : list (string * pynum)
}.

(** [sum(xs)] *)
Definition py_sum (xs : list Qc) : Qc := foldl Qcplus 0%Qc xs.

(** [[float(p) / sum(prob_distrib) for p in prob_distrib]] *)
Definition normalize (prob_distrib : list Qc) : result (list Qc) :=
  result_mapM (fun p => if decide (py_sum prob_distrib = 0%Qc)
                        then Err ZeroDivisionError
                        else Ok (p / py_sum prob_distrib)%Qc)
              prob_distrib.

Import Ballot_Generator.
Section Draws.
Context {G : Type}.
(** [choice(a, size, p=p, replace=True)] *)
Variable choice : list nat → Z → list Qc → rand G (list nat).

(** The body of the loop over the blocs. *)
Definition draw_slate (self : BradleyTerryDraws.t)
    (permutations : list (list string)) (slate : string)
    : rand G (list (list string)) :=
  prop <~ lift (from_key (dict_get slate (slate_voter_prop self)));;
  let num_ballots_slate :=
    py_int (py_mul_int (number_of_ballots (base self)) prop) in
  pref_interval_dict <~
    lift (from_key (dict_get slate (pref_interval_by_slate self)));;
  ranking_to_prob <~
    lift (BradleyTerry._calc_prob permutations pref_interval_dict);;
  let indices := seq 0 (length ranking_to_prob) in
  let prob_distrib := dict_values ranking_to_prob in
  prob_distrib <~ lift (normalize prob_distrib);;
  ballots_indices <~ choice indices num_ballots_slate prob_distrib;;
  let rankings := dict_keys ranking_to_prob in
  lift (result_mapM (fun i => from_index (rankings !! i)) ballots_indices).

Definition ballot_pool (self : BradleyTerryDraws.t)
    : rand G (list (list string)) :=
  let permutations :=
    it_permutations (ballot_length (base self)) (candidates (base self)) in
  per_slate <~ rand_for (dict_keys (slate_voter_prop self))
                        (draw_slate self permutations);;
  rand_ret (concat per_slate).

Definition generate_ballots (self : BradleyTerryDraws.t)
    : rand G PreferenceProfile :=
  ballots_list <~ ballot_pool self;;
  lift (call_ballot_pool_to_profile (Some (str_pool ballots_list))
                                    (Some (candidates (base self)))).
End Draws.
End BradleyTerryDraws.

(** The number of arrangements of [r] out of [n]:
    n * (n - 1) * ... * (n - r + 1). *)
Fixpoint arrangements (n r : nat) : nat :=
  match r with
  | O => 1
  | S r' => n * arrangements (n - 1) r'
  end.

(** The distinct rankings of a pool in the order of their first
    occurrence. *)
Definition first_occurrences (pool : list (list pyval)) : list (list pyval) :=
  fold_left (fun seen r => if decide (r ∈ seen) then seen else seen ++ [r])
            pool [].

(** ** More sample draws *)

Module SampleDraws.
(** A [randint] that returns the lower bound, and rejects an empty
    range as [random.randint] does. *)
Definition randint_low (a b : Z) : rand unit Z :=
  fun g => if decide (a ≤ b)%Z then Ok (a, g) else Err ValueError.

(** A [choice] with replacement that returns the first element of the
    population [size] times. *)
Definition choice_zero (a : list nat) (size : Z) (p : list Qc)
    : rand unit (list nat) :=
  fun g => Ok (replicate (Z.to_nat size) (hd 0%nat a), g).

(** Five ballots of length 2 over three candidates, one bloc. *)
Definition bradley_terry : BradleyTerryDraws.t :=
  BradleyTerryDraws.mk (Ballot_Generator.init 5 ["a"; "b"; "c"] (Some 2%nat))
    [("X", [("a", Q2Qc (1 # 10)); ("b", Q2Qc (1 # 2)); ("c", Q2Qc (2 # 5))])]
    [("X", PyInt 1)].

(** Proportions of 0.3, 0.3 and 0.4. *)
Definition three_blocs : PlackettLuce.t :=
  PlackettLuce.mk (Ballot_Generator.init 5 ["a"; "b"] (Some 2%nat))
    [("X", [("a", 1 # 2); ("b", 1 # 2)]);
     ("Y", [("a", 1 # 4); ("b", 3 # 4)]);
     ("Z", [("a", 3 # 4); ("b", 1 # 4)])]
    [("X", PyFrac (3 # 10)); ("Y", PyFrac (3 # 10)); ("Z", PyFrac (2 # 5))].
End SampleDraws.

(** ** The value [_calc_prob] assigns to a ranking *)

(** The supports of the candidates of a ranking, in ranking order. *)
Definition supports_of (cand_support_dict : list (string * Qc))
    (ranking : list string) : list Qc :=
  (fun c => default 0%Qc (dict_get c cand_support_dict)) <$> ranking.

(** The pairwise product of the spec, times one half per position. *)
Definition halved_pairwise (cand_support_dict : list (string * Qc))
    (ranking : list string) : Qc :=
  (BradleyTerry.spec_pairwise (supports_of cand_support_dict ranking)
   * (/ 2) ^ length ranking)%Qc.

(** The candidate has a support, and it is positive. *)
Definition positive_support (cand_support_dict : list (string * Qc))
    (c : string) : Prop :=
  ∃ s, dict_get c cand_support_dict = Some s ∧ (0 < s)%Qc.

(** * Properties *)

(** ** Dictionaries *)

Section DictFacts.
Context {K V : Type} `{EqDecision K}.
Implicit Types (k : K) (v : V) (d : list (K * V)).

Lemma dict_get_set_eq k v d : dict_get k (dict_set k v d) = Some v.
Proof.
  induction d as [|[k' v'] d IH]; simpl.
  - by rewrite decide_True.
  - destruct (decide (k = k')) as [->|Hne]; simpl.
    + by rewrite decide_True.
    + by rewrite decide_False.
Qed.

Lemma dict_get_set_ne k k' v d :
  k ≠ k' → dict_get k' (dict_set k v d) = dict_get k' d.
Proof.
  intros Hne. induction d as [|[k'' v''] d IH]; simpl.
  - by rewrite decide_False.
  - destruct (decide (k = k'')) as [->|Hne']; simpl.
    + by rewrite !decide_False.
    + destruct (decide (k' = k'')); [done|apply IH].
Qed.

Lemma dict_get_None k d : dict_get k d = None ↔ k ∉ dict_keys d.
Proof.
  unfold dict_keys. induction d as [|[k' v'] d IH]; simpl.
  - split; [intros _; apply not_elem_of_nil|done].
  - rewrite not_elem_of_cons. destruct (decide (k = k')) as [->|Hne].
    + split; [done|]. intros [? _]. done.
    + rewrite IH. tauto.
Qed.

Lemma dict_set_fresh k v d : k ∉ dict_keys d → dict_set k v d = d ++ [(k, v)].
Proof.
  unfold dict_keys. induction d as [|[k' v'] d IH]; simpl; [done|].
  rewrite not_elem_of_cons. intros [Hne Hnin].
  rewrite decide_False by done. by rewrite IH.
Qed.

Lemma dict_keys_set k v d :
  dict_keys (dict_set k v d)
  = if decide (k ∈ dict_keys d) then dict_keys d else dict_keys d ++ [k].
Proof.
  unfold dict_keys. induction d as [|[k' v'] d IH].
  - rewrite decide_False; [done|apply not_elem_of_nil].
  - cbn [dict_set]. destruct (decide (k = k')) as [->|Hne].
    + rewrite decide_True; [done|]. rewrite fmap_cons. apply list_elem_of_here.
    + rewrite !fmap_cons, IH. cbn [fst].
      destruct (decide (k ∈ d.*1)) as [Hin|Hnin].
      * rewrite decide_True; [done|by apply list_elem_of_further].
      * rewrite decide_False; [done|]. rewrite not_elem_of_cons. done.
Qed.

Lemma dict_get_NoDup k v d :
  NoDup (dict_keys d) → (k, v) ∈ d → dict_get k d = Some v.
Proof.
  unfold dict_keys. induction d as [|[k' v'] d IH].
  - intros _ Hin. by apply elem_of_nil in Hin.
  - rewrite fmap_cons. intros Hnd Hin.
    apply NoDup_cons in Hnd as [Hnin Hnd]. cbn [dict_get].
    apply elem_of_cons in Hin as [Heq|Hin].
    + injection Heq as -> ->. by rewrite decide_True.
    + rewrite decide_False; [by apply IH|].
      intros ->. apply Hnin. apply list_elem_of_fmap. by exists (k', v).
Qed.
End DictFacts.

(** ** Fractions *)

Lemma Fraction_plus (a b : Z) : (Fraction a + Fraction b)%Qc = Fraction (a + b).
Proof.
  unfold Fraction. apply Qc_is_canon. simpl.
  rewrite !Qred_correct. by rewrite inject_Z_plus.
Qed.

Lemma Fraction_inj (a b : Z) : Fraction a = Fraction b → a = b.
Proof.
  unfold Fraction. intros Heq.
  assert (Hq : (inject_Z a == inject_Z b)%Q).
  { rewrite <- (Qred_correct (inject_Z a)), <- (Qred_correct (inject_Z b)).
    change (Q2Qc (inject_Z a) == Q2Qc (inject_Z b))%Q. by rewrite Heq. }
  by apply inject_Z_injective.
Qed.

Lemma Fraction_sum (l : list nat) :
  foldr Qcplus 0%Qc ((fun c => Fraction (Z.of_nat c)) <$> l)
  = Fraction (Z.of_nat (sum_list l)).
Proof.
  induction l as [|c l IH].
  - by apply Qc_is_canon.
  - rewrite fmap_cons. cbn [foldr]. rewrite IH, Fraction_plus.
    f_equal. simpl. lia.
Qed.

(** ** The counting loop *)

Lemma count_ranking_ok d r :
  tuple_hashable r = true →
  count_ranking d r = Ok (dict_set r (count_of r d + 1)%nat d).
Proof.
  intros Hh. unfold count_ranking, count_of. rewrite Hh.
  by destruct (dict_get r d).
Qed.

Lemma count_ranking_unhashable d r :
  tuple_hashable r = false → count_ranking d r = Err TypeError.
Proof. intros Hh. unfold count_ranking. by rewrite Hh. Qed.

Lemma count_rankings_counts pool d :
  forallb tuple_hashable pool = true →
  count_rankings pool d = Ok (counts pool d).
Proof.
  revert d. induction pool as [|r pool IH]; intros d Hh; [done|].
  simpl in Hh. apply andb_prop in Hh as [Hr Hpool].
  cbn [count_rankings]. rewrite count_ranking_ok by done.
  apply (IH _ Hpool).
Qed.

Lemma count_rankings_unhashable pool d :
  forallb tuple_hashable pool = false →
  count_rankings pool d = Err TypeError.
Proof.
  revert d. induction pool as [|r pool IH]; intros d Hh; [done|].
  simpl in Hh. cbn [count_rankings].
  destruct (tuple_hashable r) eqn:Hr.
  - rewrite count_ranking_ok by done. apply IH. by rewrite <- Hh.
  - by rewrite count_ranking_unhashable.
Qed.

Lemma str_pool_hashable (pool : list (list string)) :
  forallb tuple_hashable (str_pool pool) = true.
Proof.
  unfold str_pool. induction pool as [|r pool IH]; [done|].
  simpl. rewrite IH, andb_true_r.
  unfold tuple_hashable. by induction r.
Qed.

Lemma count_of_set_eq (k : list pyval) c d : count_of k (dict_set k c d) = c.
Proof. unfold count_of. by rewrite dict_get_set_eq. Qed.

Lemma count_of_set_ne (k k' : list pyval) c d :
  k ≠ k' → count_of k' (dict_set k c d) = count_of k' d.
Proof. intros. unfold count_of. by rewrite dict_get_set_ne. Qed.

Lemma count_of_counts k pool d :
  count_of k (counts pool d) = (count_of k d + occurrences k pool)%nat.
Proof.
  unfold counts, occurrences. revert d.
  induction pool as [|r pool IH]; intros d; simpl; [lia|].
  rewrite IH. destruct (decide_rel eq r k) as [->|Hne].
  - rewrite count_of_set_eq. lia.
  - by rewrite count_of_set_ne.
Qed.

Lemma counts_keys_NoDup pool d :
  NoDup (dict_keys d) → NoDup (dict_keys (counts pool d)).
Proof.
  unfold counts. revert d. induction pool as [|r pool IH]; intros d Hnd; [done|].
  simpl. apply IH. rewrite dict_keys_set. case_decide; [done|].
  apply NoDup_app. split_and!; [done| |apply NoDup_singleton].
  intros k Hk Hk'. apply list_elem_of_singleton in Hk' as ->. done.
Qed.

Lemma counts_keys_elem k pool d :
  k ∈ dict_keys (counts pool d) ↔ k ∈ dict_keys d ∨ k ∈ pool.
Proof.
  unfold counts. revert d. induction pool as [|r pool IH]; intros d; simpl.
  - split; [by left|]. intros [?|Hin]; [done|]. by apply elem_of_nil in Hin.
  - rewrite IH, dict_keys_set, elem_of_cons. case_decide as Hr.
    + split; [intros [?|?]; auto|]. intros [?|[->|?]]; auto.
    + rewrite elem_of_app, list_elem_of_singleton. tauto.
Qed.

Lemma sum_values_set (k : list pyval) c d :
  (sum_list (dict_values (dict_set k c d)) + count_of k d
   = sum_list (dict_values d) + c)%nat.
Proof.
  unfold dict_values, count_of. induction d as [|[k' c'] d IH].
  - simpl. lia.
  - cbn [dict_set dict_get]. destruct (decide (k = k')) as [->|Hne].
    + rewrite !fmap_cons. simpl. lia.
    + rewrite !fmap_cons. simpl in *. lia.
Qed.

Lemma sum_values_counts pool d :
  sum_list (dict_values (counts pool d))
  = (sum_list (dict_values d) + length pool)%nat.
Proof.
  unfold counts. revert d. induction pool as [|r pool IH]; intros d; simpl.
  - lia.
  - rewrite IH. pose proof (sum_values_set r (count_of r d + 1) d). lia.
Qed.

(** Every entry of the dictionary holds the number of occurrences of
    its key, which is at least one. *)
Lemma counts_entries pool k c :
  (k, c) ∈ counts pool [] → c = occurrences k pool ∧ (1 ≤ c)%nat ∧ k ∈ pool.
Proof.
  intros Hin.
  assert (Hk : k ∈ pool).
  { assert (Hkeys : k ∈ dict_keys (counts pool [])).
    { apply list_elem_of_fmap. by exists (k, c). }
    apply counts_keys_elem in Hkeys as [Hnil|?]; [|done].
    by apply elem_of_nil in Hnil. }
  assert (Hget : dict_get k (counts pool []) = Some c).
  { apply dict_get_NoDup; [|done]. apply counts_keys_NoDup, NoDup_nil_2. }
  pose proof (count_of_counts k pool []) as Hc.
  unfold count_of in Hc. rewrite Hget in Hc. simpl in Hc.
  split_and!; [done| |done]. subst c. unfold occurrences.
  apply list_elem_of_In in Hk. by apply (count_occ_In (decide_rel eq)) in Hk.
Qed.

(** ** Folding a pool into a profile *)

Lemma fold_ok pool cands :
  forallb tuple_hashable pool = true →
  ballot_pool_to_profile pool cands
  = Ok (mkProfile (ballot_of_count <$> counts pool []) (list_to_set cands)).
Proof.
  intros Hh. unfold ballot_pool_to_profile.
  by rewrite count_rankings_counts.
Qed.

(** A pool with an unhashable ranking is rejected. *)
Lemma fold_unhashable pool cands :
  forallb tuple_hashable pool = false →
  ballot_pool_to_profile pool cands = Err TypeError.
Proof.
  intros Hh. unfold ballot_pool_to_profile.
  by rewrite count_rankings_unhashable.
Qed.

Lemma weights_of_counts (d : list (list pyval * nat)) :
  weight <$> (ballot_of_count <$> d)
  = (fun c => Fraction (Z.of_nat c)) <$> dict_values d.
Proof.
  unfold dict_values. rewrite <- !list_fmap_compose.
  apply list_fmap_ext. by intros i [k c] _.
Qed.

(** The keys are distinct, and each ballot carries the number of
    occurrences of its key. *)
Lemma fold_counts_by_key pool cands :
  forallb tuple_hashable pool = true →
  ∃ pp, ballot_pool_to_profile pool cands = Ok pp
        ∧ ballots pp = ballot_of_count <$> counts pool []
        ∧ NoDup (ranking_keys pool)
        ∧ ∀ k c, (k, c) ∈ counts pool [] →
                 c = occurrences k pool ∧ (1 ≤ c)%nat.
Proof.
  intros Hh. eexists. split; [by apply fold_ok|]. split_and!; [done| |].
  - apply counts_keys_NoDup, NoDup_nil_2.
  - intros k c Hin. by destruct (counts_entries _ _ _ Hin) as (? & ? & _).
Qed.

(** C1. Weight conservation: for every pool of rankings of candidate
    names and every candidate list, [ballot_pool_to_profile] returns a
    profile whose ballots' weights sum to the number of rankings in the
    pool, as an exact rational. *)
Theorem weight_conservation (pool : list (list string)) (cands : list string) :
  ∃ pp, ballot_pool_to_profile (str_pool pool) cands = Ok pp
        ∧ total_weight pp = Fraction (Z.of_nat (length pool)).
Proof.
  eexists. split; [apply fold_ok, str_pool_hashable|].
  unfold total_weight. cbn [ballots].
  rewrite weights_of_counts, Fraction_sum, sum_values_counts.
  unfold str_pool. by rewrite length_map.
Qed.

(** ** Folding again *)

Lemma counts_fresh ks d :
  NoDup ks → (∀ k, k ∈ ks → k ∉ dict_keys d) →
  counts ks d = d ++ map (fun k => (k, 1%nat)) ks.
Proof.
  unfold counts. revert d. induction ks as [|k ks IH]; intros d Hnd Hfresh.
  - simpl. by rewrite app_nil_r.
  - apply NoDup_cons in Hnd as [Hk Hnd]. cbn [fold_left map].
    assert (Hkd : k ∉ dict_keys d) by (apply Hfresh, list_elem_of_here).
    assert (Hc : count_of k d = 0%nat).
    { unfold count_of. apply dict_get_None in Hkd. by rewrite Hkd. }
    rewrite Hc, dict_set_fresh by done. cbn [Nat.add].
    rewrite IH; [by rewrite <- app_assoc|done|].
    intros k' Hk'. unfold dict_keys. rewrite fmap_app, elem_of_app.
    intros [Hin|Hin].
    + by apply (Hfresh k'); [apply list_elem_of_further|].
    + apply list_elem_of_singleton in Hin. simpl in Hin. by subst k'.
Qed.

Lemma ranking_keys_hashable pool :
  forallb tuple_hashable pool = true →
  forallb tuple_hashable (ranking_keys pool) = true.
Proof.
  rewrite !forallb_forall. intros Hh k Hk. apply Hh.
  apply list_elem_of_In. apply list_elem_of_In in Hk.
  apply counts_keys_elem in Hk as [Hnil|?]; [|done].
  by apply elem_of_nil in Hnil.
Qed.

Lemma Fraction_1 : Fraction 1 = 1%Qc.
Proof. by apply Qc_is_canon. Qed.

Lemma counts_all_one pool :
  (∀ k c, (k, c) ∈ counts pool [] → c = 1%nat) ↔ NoDup pool.
Proof.
  split.
  - intros Hone. apply NoDup_ListNoDup.
    apply (proj2 (NoDup_count_occ' (decide_rel (=@{list pyval})) pool)).
    intros k Hk.
    apply list_elem_of_In in Hk.
    assert (Hkeys : k ∈ dict_keys (counts pool [])).
    { apply counts_keys_elem. by right. }
    apply list_elem_of_fmap in Hkeys as ([k' c] & -> & Hin). simpl.
    destruct (counts_entries _ _ _ Hin) as (Hc & _ & _).
    rewrite (Hone _ _ Hin) in Hc. by symmetry.
  - intros Hnd k c Hin. destruct (counts_entries _ _ _ Hin) as (-> & _ & Hk).
    apply list_elem_of_In in Hk. apply NoDup_ListNoDup in Hnd.
    by apply (proj1 (NoDup_count_occ' (decide_rel (=@{list pyval})) pool)).
Qed.

(** The stored rankings are lists of sets: unless all of them are
    empty, folding them again is rejected. *)
Lemma refold_unhashable pp :
  Exists (fun b => ranking b ≠ []) (ballots pp) → refold pp = Err TypeError.
Proof.
  intros Hex. unfold refold. apply fold_unhashable.
  unfold get_ballots. induction Hex as [b bs Hb|b bs Hex IH].
  - rewrite fmap_cons. cbn [forallb].
    destruct (ranking b) as [|x r]; [done|]. done.
  - rewrite fmap_cons. cbn [forallb]. rewrite IH. apply andb_false_r.
Qed.

(** C7, as the code has it. Folding is idempotent on rankings, not on
    weights: folding the keys under which the pool was counted (one per
    ballot of the folded profile, in ballot order) returns a profile
    with the same rankings in the same order and the same candidates in
    which every weight is 1; it is the original profile exactly when no
    ranking occurs twice in the pool. *)
Theorem refold_keys_resets_weights pool cands :
  forallb tuple_hashable pool = true →
  ∃ pp pp',
    ballot_pool_to_profile pool cands = Ok pp
    ∧ ballot_pool_to_profile (ranking_keys pool) cands = Ok pp'
    ∧ ballots pp' = (fun b => Ballot_new (ranking b) 1%Qc) <$> ballots pp
    ∧ candidates pp' = candidates pp
    ∧ (pp' = pp ↔ NoDup pool).
Proof.
  intros Hh. do 2 eexists.
  split; [by apply fold_ok|].
  split; [by apply fold_ok, ranking_keys_hashable|].
  assert (Hkeys : counts (ranking_keys pool) []
                  = map (fun k => (k, 1%nat)) (ranking_keys pool)).
  { rewrite counts_fresh; [done| |].
    - apply counts_keys_NoDup, NoDup_nil_2.
    - intros k _. apply not_elem_of_nil. }
  assert (Hbs : ballot_of_count <$> counts (ranking_keys pool) []
                = (fun b => Ballot_new (ranking b) 1%Qc)
                    <$> (ballot_of_count <$> counts pool [])).
  { rewrite Hkeys. unfold ranking_keys, dict_keys.
    change (map ?f ?l) with (f <$> l). rewrite <- !list_fmap_compose.
    apply list_fmap_ext. intros i [k c] _.
    change ((ballot_of_count ∘ (fun k0 => (k0, 1%nat)) ∘ fst) (k, c))
      with (Ballot_new (py_set <$> k) (Fraction 1)).
    by rewrite Fraction_1. }
  cbn [ballots candidates]. split_and!; [done|done|].
  rewrite <- counts_all_one. rewrite Hbs. split.
  - intros Heq k c Hin. injection Heq as Heq.
    apply list_elem_of_lookup in Hin as [i Hi].
    apply (f_equal (fun l => weight <$> l !! i)) in Heq.
    rewrite !list_lookup_fmap, Hi in Heq.
    change (Some 1%Qc = Some (Fraction (Z.of_nat c))) in Heq.
    apply (inj Some) in Heq. rewrite <- Fraction_1 in Heq.
    apply Fraction_inj in Heq. lia.
  - intros Hone. f_equal. rewrite <- list_fmap_compose.
    apply list_fmap_ext. intros i [k c] Hi.
    apply list_elem_of_lookup_2 in Hi. rewrite (Hone _ _ Hi).
    change (Ballot_new (py_set <$> k) 1%Qc
            = Ballot_new (py_set <$> k) (Fraction 1)).
    by rewrite Fraction_1.
Qed.

(** An instance: a pool of three rankings, one of them repeated. *)
Lemma refold_keys_resets_weights_witness :
  forallb tuple_hashable (str_pool [["a"; "b"]; ["b"; "a"]; ["a"; "b"]]) = true
  ∧ ∃ pp pp',
      ballot_pool_to_profile
        (str_pool [["a"; "b"]; ["b"; "a"]; ["a"; "b"]]) ["a"; "b"] = Ok pp
      ∧ ballot_pool_to_profile
          (ranking_keys (str_pool [["a"; "b"]; ["b"; "a"]; ["a"; "b"]]))
          ["a"; "b"] = Ok pp'
      ∧ ballots pp' = (fun b => Ballot_new (ranking b) 1%Qc) <$> ballots pp
      ∧ candidates pp' = candidates pp
      ∧ (pp' = pp ↔ NoDup (str_pool [["a"; "b"]; ["b"; "a"]; ["a"; "b"]])).
Proof.
  split; [reflexivity|].
  apply (refold_keys_resets_weights
           (str_pool [["a"; "b"]; ["b"; "a"]; ["a"; "b"]]) ["a"; "b"]).
  reflexivity.
Defined.

(** C7, as the spec states it, fails: the pool [["a"], ["a"]] folds
    into one ballot of weight 2; folding the rankings of that profile
    raises [TypeError], and folding its one key gives weight 1. *)
Lemma fold_not_idempotent :
  ∃ pp, ballot_pool_to_profile (str_pool [["a"]; ["a"]]) ["a"] = Ok pp
        ∧ refold pp ≠ Ok pp
        ∧ ballot_pool_to_profile (ranking_keys (str_pool [["a"]; ["a"]])) ["a"]
          ≠ Ok pp.
Proof.
  eexists. split; [apply fold_ok; reflexivity|]. split.
  - rewrite refold_unhashable; [discriminate|].
    apply Exists_cons_hd. discriminate.
  - rewrite fold_ok by reflexivity. intros Heq.
    apply (f_equal (fun r => match r with
                             | Ok p => Qnum (this (total_weight p))
                             | Err _ => 0%Z
                             end)) in Heq.
    vm_compute in Heq. discriminate Heq.
Qed.

(** The same loss of weight on a pool of empty rankings, which are
    hashable as stored. *)
Lemma refold_empty_rankings :
  ∃ pp, ballot_pool_to_profile [[]; []] [] = Ok pp
        ∧ ∃ pp', refold pp = Ok pp' ∧ total_weight pp = Fraction 2
                 ∧ total_weight pp' = Fraction 1.
Proof.
  eexists. split; [apply fold_ok; reflexivity|].
  eexists. split; [apply fold_ok; reflexivity|].
  split; by apply Qc_is_canon.
Qed.

(** ** One ballot per ranking *)

Lemma rankings_of_counts (d : list (list pyval * nat)) :
  ranking <$> (ballot_of_count <$> d) = fmap py_set <$> dict_keys d.
Proof.
  unfold dict_keys. rewrite <- !list_fmap_compose.
  apply list_fmap_ext. by intros i [k c] _.
Qed.

(** Where [set] tells the rankings of the pool apart, the ballots have
    distinct rankings, and each weight is the number of occurrences of
    the ballot's ranking in the pool, a positive integer. *)
Lemma fold_distinct_when_injective pool cands :
  forallb tuple_hashable pool = true →
  (∀ k k', k ∈ pool → k' ∈ pool → py_set <$> k = py_set <$> k' → k = k') →
  ∃ pp, ballot_pool_to_profile pool cands = Ok pp
        ∧ NoDup (ranking <$> ballots pp)
        ∧ ∀ b, b ∈ ballots pp →
               ∃ k, k ∈ pool ∧ ranking b = py_set <$> k
                    ∧ weight b = Fraction (Z.of_nat (occurrences k pool))
                    ∧ (1 ≤ occurrences k pool)%nat.
Proof.
  intros Hh Hinj. eexists. split; [by apply fold_ok|]. cbn [ballots]. split.
  - rewrite rankings_of_counts. apply NoDup_fmap_2_strong.
    + intros k k' Hk Hk'. apply Hinj.
      * apply counts_keys_elem in Hk as [Hnil|?]; [|done].
        by apply elem_of_nil in Hnil.
      * apply counts_keys_elem in Hk' as [Hnil|?]; [|done].
        by apply elem_of_nil in Hnil.
    + apply counts_keys_NoDup, NoDup_nil_2.
  - intros b Hb. apply list_elem_of_fmap in Hb as ([k c] & -> & Hin).
    destruct (counts_entries _ _ _ Hin) as (-> & Hpos & Hk).
    by exists k.
Qed.

(** C10 fails on the code: [set(cand)] on a name is the set of its
    characters, so the rankings ["A"] and ["AA"], counted apart, become
    two ballots with the same ranking [{"A"}], each of weight 1. *)
Theorem names_with_equal_characters_collide :
  ∃ pp b,
    ballot_pool_to_profile (str_pool [["A"]; ["AA"]]) ["A"; "AA"] = Ok pp
    ∧ ballots pp = [b; b]
    ∧ ranking b = [{["A"]}]
    ∧ weight b = Fraction 1
    ∧ ¬ NoDup (ranking <$> ballots pp).
Proof.
  exists (mkProfile (ballot_of_count <$> counts (str_pool [["A"]; ["AA"]]) [])
                    (list_to_set ["A"; "AA"])).
  exists (Ballot_new [{["A"]}] (Fraction 1)).
  split; [apply fold_ok; reflexivity|].
  assert (Hbs : ballot_of_count <$> counts (str_pool [["A"]; ["AA"]]) []
                = [Ballot_new [{["A"]}] (Fraction 1);
                   Ballot_new [{["A"]}] (Fraction 1)]).
  { apply (bool_decide_unpack _). vm_compute. exact I. }
  cbn [ballots]. rewrite Hbs. split_and!; [done|done|done|].
  intros Hnd. apply NoDup_cons in Hnd as [Hnin _].
  apply Hnin, list_elem_of_here.
Qed.

(** ** remove_empty_ballots *)

Lemma refs_valid_lookups (h : list Ballot) (refs : list nat) :
  Forall (fun r => r < length h)%nat refs →
  ∃ bs, Forall2 (fun r b => h !! r = Some b) refs bs.
Proof.
  induction 1 as [|r refs Hr _ [bs IH]].
  - exists []. constructor.
  - apply lookup_lt_is_Some_2 in Hr as [b Hb].
    exists (b :: bs). by constructor.
Qed.

Lemma lookups_app (h h' : list Ballot) refs bs :
  Forall2 (fun r b => h !! r = Some b) refs bs →
  Forall2 (fun r b => (h ++ h') !! r = Some b) refs bs.
Proof.
  intros Hbs. eapply Forall2_impl; [exact Hbs|].
  intros r b Hr. by apply lookup_app_l_Some.
Qed.

Lemma lookups_fresh (h fs : list Ballot) :
  Forall2 (fun r b => (h ++ fs) !! r = Some b) (seq (length h) (length fs)) fs.
Proof.
  apply Forall2_same_length_lookup_2.
  - by rewrite length_seq.
  - intros i r b Hr Hb. apply lookup_seq in Hr as [-> _].
    by rewrite lookup_app_r, Nat.add_comm, Nat.add_sub by lia.
Qed.

Lemma copy_nonempty_spec refs : ∀ h bs,
  Forall2 (fun r b => h !! r = Some b) refs bs →
  copy_nonempty h refs
  = Some (seq (length h) (length (filter (fun b => ranking b ≠ []) bs)),
          h ++ filter (fun b => ranking b ≠ []) bs).
Proof.
  induction refs as [|r refs IH]; intros h bs Hbs.
  - apply Forall2_nil_inv_l in Hbs as ->. simpl. by rewrite app_nil_r.
  - apply Forall2_cons_inv_l in Hbs as (b & bs' & Hb & Hbs' & ->).
    cbn [copy_nonempty]. rewrite Hb. cbn [mbind option_bind].
    case_bool_decide as Hne.
    + unfold deepcopy. rewrite Hb. cbn [mbind option_bind].
      rewrite (IH (h ++ [b]) bs') by by apply lookups_app.
      cbn [mbind option_bind]. rewrite filter_cons_True by done.
      rewrite length_app, Nat.add_1_r, <- app_assoc. reflexivity.
    + rewrite filter_cons_False; [by apply IH|]. by intros Hb'.
Qed.

Lemma view_lookups h refs cands bs :
  Forall2 (fun r b => h !! r = Some b) refs bs →
  view h (mkProfileObj refs cands) = Some (mkProfile bs cands).
Proof.
  intros Hbs. unfold view. cbn [ballot_refs obj_candidates].
  apply mapM_Some in Hbs. by rewrite Hbs.
Qed.

(** C9. On a store in which the input profile's ballots exist,
    [remove_empty_ballots] returns a new profile whose ballots are the
    input's ballots with a non-empty ranking, in input order; they are
    fresh copies, every object that existed before the call keeps its
    state, so the input profile is unchanged; with [keep_candidates] the
    output has the input's candidate set. *)
Theorem remove_empty_ballots_frame h pp keep_candidates :
  Forall (fun r => r < length h)%nat (ballot_refs pp) →
  ∃ bs pp_clean h',
    view h pp = Some (mkProfile bs (obj_candidates pp))
    ∧ remove_empty_ballots h pp keep_candidates = Some (pp_clean, h')
    ∧ ballots <$> view h' pp_clean
      = Some (filter (fun b => ranking b ≠ []) bs)
    ∧ (∀ r b, h !! r = Some b → h' !! r = Some b)
    ∧ view h' pp = view h pp
    ∧ Forall (fun r => length h ≤ r)%nat (ballot_refs pp_clean)
    ∧ NoDup (ballot_refs pp_clean)
    ∧ (keep_candidates = true → obj_candidates pp_clean = obj_candidates pp).
Proof.
  intros Hvalid. destruct (refs_valid_lookups _ _ Hvalid) as [bs Hbs].
  destruct pp as [refs cands]. cbn [ballot_refs obj_candidates] in *.
  set (fs := filter (fun b => ranking b ≠ []) bs).
  set (rs := seq (length h) (length fs)).
  assert (Hfs : mapM (fun r => (h ++ fs) !! r) rs = Some fs).
  { apply mapM_Some, lookups_fresh. }
  exists bs.
  exists (mkProfileObj rs
            (candidates (PreferenceProfile_new fs
               (if keep_candidates then Some (elements cands) else None)))).
  exists (h ++ fs).
  split; [by apply view_lookups|]. split.
  { unfold remove_empty_ballots. cbn [ballot_refs obj_candidates].
    rewrite (copy_nonempty_spec refs h bs Hbs). fold fs rs.
    cbn [mbind option_bind]. unfold ProfileObj_new.
    destruct keep_candidates; rewrite Hfs; reflexivity. }
  split.
  { unfold view. cbn [ballot_refs obj_candidates]. by rewrite Hfs. }
  split; [intros r b Hr; by apply lookup_app_l_Some|].
  split.
  { rewrite !(view_lookups _ _ _ bs); [done|done|by apply lookups_app]. }
  split.
  { cbn [ballot_refs]. apply Forall_forall. intros r Hr.
    apply elem_of_seq in Hr. lia. }
  split; [apply NoDup_seq|].
  intros ->. cbn [obj_candidates PreferenceProfile_new candidates].
  apply list_to_set_elements_L.
Qed.

(** An instance: the sample store and profile, keeping the candidates. *)
Lemma remove_empty_ballots_frame_witness :
  Forall (fun r => r < length Sample.store)%nat (ballot_refs Sample.profile)
  ∧ ∃ bs pp_clean h',
      view Sample.store Sample.profile
      = Some (mkProfile bs (obj_candidates Sample.profile))
      ∧ remove_empty_ballots Sample.store Sample.profile true
        = Some (pp_clean, h')
      ∧ ballots <$> view h' pp_clean
        = Some (filter (fun b => ranking b ≠ []) bs)
      ∧ (∀ r b, Sample.store !! r = Some b → h' !! r = Some b)
      ∧ view h' Sample.profile = view Sample.store Sample.profile
      ∧ Forall (fun r => length Sample.store ≤ r)%nat (ballot_refs pp_clean)
      ∧ NoDup (ballot_refs pp_clean)
      ∧ (true = true → obj_candidates pp_clean = obj_candidates Sample.profile).
Proof.
  assert (Hvalid : Forall (fun r => r < length Sample.store)%nat
                          (ballot_refs Sample.profile)).
  { repeat constructor. }
  split; [exact Hvalid|].
  exact (remove_empty_ballots_frame Sample.store Sample.profile true Hvalid).
Defined.

(** On the sample store the second ballot is dropped and the other two
    are copied to the addresses 3 and 4. *)
Example remove_empty_ballots_sample :
  remove_empty_ballots Sample.store Sample.profile true
  = Some (mkProfileObj [3; 4]%nat {["a"; "b"; "c"]},
          Sample.store ++ [Ballot_new [{["a"]}; {["b"]}] 1%Qc;
                           Ballot_new [{["b"]}] (Fraction 2)]).
Proof. apply (bool_decide_unpack _). vm_compute. exact I. Qed.

(** ** Loops of draws *)

Section RandFacts.
Context {G A B : Type}.

Lemma rand_bind_ok (m : rand G A) (k : A → rand G B) g a g' :
  m g = Ok (a, g') → rand_bind m k g = k a g'.
Proof. intros Hm. unfold rand_bind. by rewrite Hm. Qed.

Lemma rand_bind_err (m : rand G A) (k : A → rand G B) g e :
  m g = Err e → rand_bind m k g = Err e.
Proof. intros Hm. unfold rand_bind. by rewrite Hm. Qed.

Lemma rand_bind_lift_ok (r : result A) (k : A → rand G B) g a :
  r = Ok a → rand_bind (lift r) k g = k a g.
Proof. by intros ->. Qed.

End RandFacts.

Section LoopFacts.
Context {G A : Type}.

(** A loop whose body always draws returns one value per iteration. *)
Lemma rand_repeat_ok (body : rand G A) n :
  (∀ g, ∃ a g', body g = Ok (a, g')) →
  ∀ g, ∃ l g', rand_repeat n body g = Ok (l, g') ∧ length l = n.
Proof.
  intros Hbody. induction n as [|n IH]; intros g.
  - by exists [], g.
  - destruct (Hbody g) as (a & g1 & Ha).
    destruct (IH g1) as (l & g2 & Hl & Hlen).
    exists (a :: l), g2. cbn [rand_repeat].
    rewrite (rand_bind_ok _ _ _ _ _ Ha), (rand_bind_ok _ _ _ _ _ Hl).
    split; [done|]. simpl. by rewrite Hlen.
Qed.

(** A loop that runs at least once fails when its body does. *)
Lemma rand_repeat_err (body : rand G A) n e :
  (∀ g, body g = Err e) → (0 < n)%nat →
  ∀ g, rand_repeat n body g = Err e.
Proof.
  intros Hbody Hn g. destruct n as [|n]; [lia|].
  cbn [rand_repeat]. by apply rand_bind_err.
Qed.
End LoopFacts.

(** ** PlackettLuce *)




(** The whole pool of the sample has 3 + 1 = 4 ballots, not 5. *)
Example PlackettLuce_sample_pool :
  ∃ pool, PlackettLuce.ballot_pool Sample.choice_first Sample.plackett_luce tt
          = Ok (pool, tt) ∧ length pool = 4%nat.
Proof. eexists. split; [vm_compute; reflexivity|done]. Qed.

(** [__init__] performs no check: every configuration is accepted. *)
Lemma PlackettLuce_init_total pref_interval_by_slate slate_voter_prop
    number_of_ballots candidates ballot_length :
  ∃ self, PlackettLuce.init pref_interval_by_slate slate_voter_prop
            number_of_ballots candidates ballot_length = Ok self
          ∧ PlackettLuce.pref_interval_by_slate self = pref_interval_by_slate
          ∧ PlackettLuce.slate_voter_prop self = slate_voter_prop.
Proof. by eexists. Qed.

(** C4 fails on the code: with proportions 4/5 and 2/5, which sum to
    6/5, and no preference interval for the second bloc, the constructor
    returns a generator. *)
Theorem PlackettLuce_init_accepts_invalid :
  PlackettLuce.spec_valid_config
    [("white", [("a", 1 # 2); ("b", 1 # 2)])]
    [("white", PyFrac (4 # 5)); ("black", PyFrac (2 # 5))] = false
  ∧ PlackettLuce.props_sum
      [("white", PyFrac (4 # 5)); ("black", PyFrac (2 # 5))] == 6 # 5
  ∧ dict_get "black" [("white", [("a", 1 # 2); ("b", 1 # 2)])] = None
  ∧ is_Ok (PlackettLuce.init
             [("white", [("a", 1 # 2); ("b", 1 # 2)])]
             [("white", PyFrac (4 # 5)); ("black", PyFrac (2 # 5))]
             5 ["a"; "b"] (Some 2%nat)) = true.
Proof. by vm_compute. Qed.

(** On that configuration the error comes from [generate_ballots],
    after the ballots of the first bloc were drawn. *)
Example PlackettLuce_invalid_fails_late :
  ∃ self,
    PlackettLuce.init
      [("white", [("a", 1 # 2); ("b", 1 # 2)])]
      [("white", PyFrac (4 # 5)); ("black", PyFrac (2 # 5))]
      5 ["a"; "b"] (Some 2%nat) = Ok self
    ∧ (∃ drawn, PlackettLuce.draw_race Sample.choice_first self "white" tt
                = Ok (drawn, tt) ∧ length drawn = 4%nat)
    ∧ PlackettLuce.draw_race Sample.choice_first self "black" tt = Err KeyError
    ∧ PlackettLuce.generate_ballots Sample.choice_first self tt = Err KeyError.
Proof.
  eexists. split; [reflexivity|]. split; [|split; reflexivity].
  eexists. split; [vm_compute; reflexivity|done].
Qed.

(** ** IAC *)

(** C5 fails on the code. The index is drawn from [range(6)] whatever
    the number of permutations, while the probability vector has one
    entry per permutation: numpy rejects a population and a probability
    vector of different sizes, so unless there are exactly 6
    permutations no ballot is drawn and [generate_ballots] raises. *)
Theorem IAC_fixed_population {G} (dirichlet : list Z → rand G (list Q))
    (choice : list nat → nat → list Q → rand G (list nat))
    (self : Ballot_Generator.t) :
  (∀ alpha g p g', dirichlet alpha g = Ok (p, g') → length p = length alpha) →
  (∀ a size p g, length a ≠ length p → choice a size p g = Err ValueError) →
  length (IAC.perm_rankings self) ≠ 6%nat →
  (0 < Ballot_Generator.number_of_ballots self)%Z →
  ∀ g, is_Ok (IAC.generate_ballots dirichlet choice self g) = false.
Proof.
  intros Hdirichlet Hchoice Hperms Hn g.
  unfold IAC.generate_ballots, IAC.ballot_pool.
  unfold rand_bind at 1. unfold rand_bind at 1.
  destruct (dirichlet _ g) as [[p g1]|e] eqn:Hp; [|done].
  apply Hdirichlet in Hp. rewrite length_replicate in Hp.
  rewrite (rand_repeat_err _ _ ValueError); [done| |lia].
  intros g2. unfold IAC.draw. apply rand_bind_err, Hchoice.
  rewrite length_seq. congruence.
Qed.

(** An instance: two candidates, one ballot. *)
Lemma IAC_fixed_population_witness :
  is_Ok (IAC.generate_ballots Sample.dirichlet_uniform Sample.choice_index
           Sample.two_candidates tt) = false.
Proof.
  apply (IAC_fixed_population Sample.dirichlet_uniform Sample.choice_index
           Sample.two_candidates).
  - intros alpha g p g' Hp. injection Hp as <- _. apply length_replicate.
  - intros a size p g Hne. unfold Sample.choice_index.
    destruct (decide (length a = length p)); [done|reflexivity].
  - vm_compute. discriminate.
  - reflexivity.
Defined.

(** With two candidates there are two permutations, and the draw fails. *)
Example IAC_two_candidates :
  IAC.perm_rankings Sample.two_candidates = [["a"; "b"]; ["b"; "a"]]
  ∧ IAC.generate_ballots Sample.dirichlet_uniform Sample.choice_index
      Sample.two_candidates tt = Err ValueError.
Proof. split; reflexivity. Qed.

(** With three candidates and ballots of length 2 there are six
    permutations, the one case in which the draws go through. *)
Example IAC_three_candidates :
  length (IAC.perm_rankings Sample.three_candidates) = 6%nat
  ∧ is_Ok (IAC.generate_ballots Sample.dirichlet_uniform Sample.choice_index
             Sample.three_candidates tt) = true.
Proof. split; by vm_compute. Qed.

(** ** OneDimSpatial *)

(** C8 fails on the code: the last line calls [ballot_pool_to_profile]
    with the pool alone, without the candidates, so whatever the draws
    [generate_ballots] raises and never returns a profile. *)
Theorem OneDimSpatial_never_returns {G} (normal : Q → Q → Z → rand G (list Q))
    (self : Ballot_Generator.t) (g : G) :
  is_Ok (OneDimSpatial.generate_ballots normal self g) = false.
Proof.
  unfold OneDimSpatial.generate_ballots, rand_bind.
  by destruct (OneDimSpatial.ballot_pool normal self g) as [[pool g']|e].
Qed.

(** One voter and one candidate: the pool is built, the call fails. *)
Example OneDimSpatial_one_candidate :
  OneDimSpatial.ballot_pool Sample.normal_mean Sample.one_candidate tt
  = Ok ([["a"]], tt)
  ∧ OneDimSpatial.generate_ballots Sample.normal_mean Sample.one_candidate tt
    = Err TypeError.
Proof. split; reflexivity. Qed.

(** One voter and two candidates: each position is an array of two
    numbers, and sorting compares arrays. *)
Example OneDimSpatial_two_candidates :
  OneDimSpatial.generate_ballots Sample.normal_mean Sample.two_candidates tt
  = Err ValueError.
Proof. reflexivity. Qed.

(** ** AlternatingCrossover *)

Lemma rand_for_ok {G A B} (P : A → B → Prop) (body : A → rand G B) xs :
  (∀ x, x ∈ xs → ∀ g, ∃ b g', body x g = Ok (b, g') ∧ P x b) →
  ∀ g, ∃ bs g', rand_for xs body g = Ok (bs, g') ∧ Forall2 P xs bs.
Proof.
  induction xs as [|x xs IH]; intros Hbody g.
  - exists [], g. split; [done|constructor].
  - destruct (Hbody x (list_elem_of_here _ _) g) as (b & g1 & Hb & HP).
    destruct (IH (fun y Hy => Hbody y (list_elem_of_further _ _ _ Hy)) g1)
      as (bs & g2 & Hbs & HPs).
    exists (b :: bs), g2. cbn [rand_for].
    rewrite (rand_bind_ok _ _ _ _ _ Hb), (rand_bind_ok _ _ _ _ _ Hbs).
    split; [done|by constructor].
Qed.

Lemma supports_ok (pref_interval_dict : list (string * Q)) cands :
  Forall (fun c => is_Some (dict_get c pref_interval_dict)) cands →
  ∃ vec, result_mapM (fun cand => from_key (dict_get cand pref_interval_dict))
                     cands = Ok vec.
Proof.
  induction 1 as [|c cands [s Hs] _ [vec IH]].
  - by exists [].
  - exists (s :: vec). cbn [result_mapM]. by rewrite Hs, IH.
Qed.

(** A loyal ballot is the bloc's own draw, a crossover ballot alternates
    the two draws, starting with the opposing bloc. *)
Lemma make_ballot_loyal self slate bloc_cands opposing_cands :
  AlternatingCrossover.make_ballot self slate slate bloc_cands opposing_cands
  = take (Ballot_Generator.ballot_length (AlternatingCrossover.base self))
         bloc_cands.
Proof. unfold AlternatingCrossover.make_ballot. by rewrite decide_False by auto. Qed.

Lemma make_ballot_crossover self slate opposing_slate bloc_cands opposing_cands :
  slate ≠ opposing_slate →
  AlternatingCrossover.make_ballot self slate opposing_slate
    bloc_cands opposing_cands
  = take (Ballot_Generator.ballot_length (AlternatingCrossover.base self))
         (AlternatingCrossover.alternate opposing_cands bloc_cands).
Proof.
  intros Hne. unfold AlternatingCrossover.make_ballot. by rewrite decide_True.
Qed.

Section CrossoverDraws.
Context {G : Type} (choice : list string → list Q → rand G string).
Context (self : AlternatingCrossover.t) (slate opposing_slate : string).
Context (pref_interval_dict : list (string * Q)).

Let supported (c : string) : Prop := is_Some (dict_get c pref_interval_dict).

Hypothesis choice_ok : ∀ p g, ∃ c g',
  choice (Ballot_Generator.candidates (AlternatingCrossover.base self)) p g
  = Ok (c, g')
  ∧ Forall supported (str_iter c).

Lemma crossover_draw_ok bloc_cands opposing_cands g :
  Forall supported bloc_cands → Forall supported opposing_cands →
  ∃ c c' g',
    AlternatingCrossover.draw choice self slate opposing_slate
      pref_interval_dict (bloc_cands, opposing_cands) g
    = Ok ((AlternatingCrossover.make_ballot self slate opposing_slate
             (str_iter c) (str_iter c'),
           (str_iter c, str_iter c')), g')
    ∧ Forall supported (str_iter c) ∧ Forall supported (str_iter c').
Proof.
  intros Hbloc Hopp.
  destruct (supports_ok _ _ Hopp) as [pref_for_opposing Ho].
  destruct (supports_ok _ _ Hbloc) as [pref_for_bloc Hb].
  destruct (choice_ok pref_for_bloc g) as (c & g1 & Hc & Hsc).
  destruct (choice_ok pref_for_opposing g1) as (c' & g2 & Hc' & Hsc').
  exists c, c', g2. split; [|done].
  unfold AlternatingCrossover.draw.
  rewrite (rand_bind_lift_ok _ _ _ _ Ho), (rand_bind_lift_ok _ _ _ _ Hb).
  by rewrite (rand_bind_ok _ _ _ _ _ Hc), (rand_bind_ok _ _ _ _ _ Hc').
Qed.

Lemma crossover_draws_ok n : ∀ bloc_cands opposing_cands g,
  Forall supported bloc_cands → Forall supported opposing_cands →
  ∃ drawn g',
    AlternatingCrossover.draws choice self slate opposing_slate
      pref_interval_dict n (bloc_cands, opposing_cands) g
    = Ok (drawn, g')
    ∧ length drawn = n
    ∧ Forall (fun ballot => ∃ c c',
                ballot = AlternatingCrossover.make_ballot self slate
                           opposing_slate (str_iter c) (str_iter c'))
             drawn.
Proof.
  induction n as [|n IH]; intros bloc_cands opposing_cands g Hbloc Hopp.
  - exists [], g. by split_and!.
  - destruct (crossover_draw_ok _ _ g Hbloc Hopp)
      as (c & c' & g1 & Hd & Hsc & Hsc').
    destruct (IH _ _ g1 Hsc Hsc') as (drawn & g2 & Hds & Hlen & Hshape).
    eexists (_ :: drawn), g2. cbn [AlternatingCrossover.draws].
    rewrite (rand_bind_ok _ _ _ _ _ Hd). cbn [fst snd].
    rewrite (rand_bind_ok _ _ _ _ _ Hds).
    split_and!; [done|by rewrite <- Hlen|].
    constructor; [by exists c, c'|done].
Qed.
End CrossoverDraws.



(** A fractional rate never reaches the draws: [range] rejects the
    product. *)
Lemma AlternatingCrossover_fractional_rate {G}
    (choice : list string → list Q → rand G string) self slate num
    crossover_dict pref_interval_dict opposing_slate q opposing_cands bloc_cands g :
  dict_get opposing_slate crossover_dict = Some (PyFrac q) →
  dict_get opposing_slate (AlternatingCrossover.slate_to_candidate self)
  = Some opposing_cands →
  dict_get slate (AlternatingCrossover.slate_to_candidate self)
  = Some bloc_cands →
  AlternatingCrossover.draw_pairing choice self slate num crossover_dict
    pref_interval_dict opposing_slate g = Err TypeError.
Proof.
  intros Hq Hopp Hbloc. unfold AlternatingCrossover.draw_pairing.
  rewrite (rand_bind_lift_ok _ _ _ (PyFrac q)) by (by rewrite Hq).
  rewrite (rand_bind_lift_ok _ _ _ opposing_cands) by (by rewrite Hopp).
  by rewrite (rand_bind_lift_ok _ _ _ bloc_cands) by (by rewrite Hbloc).
Qed.


(** With the rate one half, the product is 2.0 and [range] raises. *)
Example AlternatingCrossover_half_rate :
  AlternatingCrossover.generate_ballots Sample.choice_head
    (Sample.crossover [("A", PyFrac (1 # 2)); ("B", PyFrac (1 # 2))]) tt
  = Err TypeError.
Proof. reflexivity. Qed.

(** ** BradleyTerry *)

Section BradleyTerryFacts.
Open Scope Qc_scope.
Context (cand_support_dict : list (string * Qc)).

Lemma pos_sum_nonzero (x y : Qc) : 0 < x → 0 < y → x + y ≠ 0.
Proof.
  intros Hx Hy Heq. pose proof (Qcplus_pos_pos _ _ Hx Hy) as Hpos.
  rewrite Heq in Hpos. by apply Qclt_not_eq in Hpos.
Qed.

Lemma loop_j_ok greater_cand_support ranking supports : ∀ prob,
  Forall2 (fun c s => dict_get c cand_support_dict = Some s) ranking supports →
  Forall (fun s => greater_cand_support + s ≠ 0) supports →
  BradleyTerry.loop_j cand_support_dict greater_cand_support ranking prob
  = Ok (prob * foldr Qcmult 1
                 ((fun s => greater_cand_support / (greater_cand_support + s))
                    <$> supports)).
Proof.
  intros prob Hsup. revert prob.
  induction Hsup as [|c s ranking supports Hc _ IH]; intros prob Hnz.
  - simpl. f_equal. ring.
  - apply Forall_cons in Hnz as [Hs Hnz].
    cbn [BradleyTerry.loop_j]. rewrite Hc. cbn [from_key mbind result_bind].
    rewrite decide_False by done. rewrite IH by done.
    rewrite fmap_cons. cbn [foldr]. f_equal. ring.
Qed.

(** What [_calc_prob] computes for a ranking: every position is also
    paired with itself, which contributes a factor one half. *)
Lemma ranking_prob_value ranking supports :
  Forall2 (fun c s => dict_get c cand_support_dict = Some s) ranking supports →
  Forall (fun s => 0 < s) supports →
  BradleyTerry.ranking_prob cand_support_dict ranking
  = Ok (BradleyTerry.spec_pairwise supports * (/ 2) ^ length supports).
Proof.
  unfold BradleyTerry.ranking_prob. intros Hsup.
  assert (Hgen : ∀ prob, Forall (fun s => 0 < s) supports →
    BradleyTerry.loop_i cand_support_dict ranking prob
    = Ok (prob * (BradleyTerry.spec_pairwise supports
                  * (/ 2) ^ length supports))).
  { induction Hsup as [|c s ranking supports Hc Hsup IH]; intros prob Hpos.
    - simpl. f_equal. ring.
    - apply Forall_cons in Hpos as [Hs Hpos].
      cbn [BradleyTerry.loop_i]. rewrite Hc. cbn [from_key mbind result_bind].
      rewrite (loop_j_ok s (c :: ranking) (s :: supports)).
      + cbn [mbind result_bind]. rewrite IH by done. f_equal.
        rewrite fmap_cons.
        cbn [foldr BradleyTerry.spec_pairwise length Qcpower].
        assert (Hhalf : s / (s + s) = / 2).
        { field. split; [done|by apply pos_sum_nonzero]. }
        rewrite Hhalf. ring.
      + by constructor.
      + apply Forall_cons. split; [by apply pos_sum_nonzero|].
        eapply Forall_impl; [exact Hpos|].
        intros s' Hs'. by apply pos_sum_nonzero. }
  intros Hpos. rewrite Hgen by done. f_equal. ring.
Qed.
End BradleyTerryFacts.

(** C2 fails on the code: the inner loop starts at [j = i], so on the
    ranking (a, b) with supports 1 and 1 [_calc_prob] returns
    1/2 * 1/2 * 1/2 = 1/8, where the product over the pairs i < j is
    1/2. *)
Theorem calc_prob_counts_self_pairs :
  BradleyTerry._calc_prob [["a"; "b"]] [("a", 1%Qc); ("b", 1%Qc)]
  = Ok [(["a"; "b"], Q2Qc (1 # 8))]
  ∧ BradleyTerry.spec_pairwise [1%Qc; 1%Qc] = Q2Qc (1 # 2).
Proof.
  split.
  - apply (bool_decide_unpack _). vm_compute. exact I.
  - by apply Qc_is_canon.
Qed.

(** The supports of the script at the end of the module, as exact
    rationals: 1/24 for the ranking (a, b), not 1/6. *)
Example calc_prob_script_supports :
  BradleyTerry._calc_prob [["a"; "b"]]
    [("a", Q2Qc (1 # 10)); ("b", Q2Qc (1 # 2)); ("c", Q2Qc (2 # 5))]
  = Ok [(["a"; "b"], Q2Qc (1 # 24))]
  ∧ BradleyTerry.spec_pairwise [Q2Qc (1 # 10); Q2Qc (1 # 2)] = Q2Qc (1 # 6).
Proof.
  split.
  - apply (bool_decide_unpack _). vm_compute. exact I.
  - by apply Qc_is_canon.
Qed.

(** * Further properties *)

(** ** Folding: errors, order and closed form *)


Lemma counts_entry_of_member pool k :
  k ∈ pool → (k, occurrences k pool) ∈ counts pool [].
Proof.
  intros Hk.
  assert (Hkeys : k ∈ dict_keys (counts pool [])).
  { apply counts_keys_elem. by right. }
  apply list_elem_of_fmap in Hkeys as ([k' c] & -> & Hin). simpl.
  destruct (counts_entries _ _ _ Hin) as (Hc & _ & _). by rewrite <- Hc.
Qed.

Lemma counts_NoDup pool : NoDup (counts pool []).
Proof.
  apply (NoDup_fmap_1 fst). apply counts_keys_NoDup, NoDup_nil_2.
Qed.

Lemma occurrences_Permutation k pool pool' :
  pool ≡ₚ pool' → occurrences k pool = occurrences k pool'.
Proof.
  intros Hp. unfold occurrences.
  by apply (proj1 (Permutation_count_occ (decide_rel (=@{list pyval})) pool pool')).
Qed.

Lemma counts_Permutation pool pool' :
  pool ≡ₚ pool' → counts pool [] ≡ₚ counts pool' [].
Proof.
  intros Hp. apply NoDup_Permutation; [apply counts_NoDup..|].
  intros [k c]. split; intros Hin.
  - destruct (counts_entries _ _ _ Hin) as (-> & _ & Hk).
    rewrite (occurrences_Permutation k pool pool' Hp).
    apply counts_entry_of_member. by rewrite <- Hp.
  - destruct (counts_entries _ _ _ Hin) as (-> & _ & Hk).
    rewrite <- (occurrences_Permutation k pool pool' Hp).
    apply counts_entry_of_member. by rewrite Hp.
Qed.

Lemma hashable_Permutation pool pool' :
  pool ≡ₚ pool' →
  forallb tuple_hashable pool = true → forallb tuple_hashable pool' = true.
Proof.
  intros Hp. rewrite !forallb_forall. intros Hh r Hr. apply Hh.
  apply list_elem_of_In. rewrite Hp. by apply list_elem_of_In.
Qed.

(** X2. The order of the pool only decides the order of the ballots:
    two pools that are rearrangements of one another fold into profiles
    with the same candidates and the same ballots up to their order. *)
Theorem fold_rearranged pool pool' cands :
  pool ≡ₚ pool' →
  forallb tuple_hashable pool = true →
  ∃ pp pp',
    ballot_pool_to_profile pool cands = Ok pp
    ∧ ballot_pool_to_profile pool' cands = Ok pp'
    ∧ ballots pp ≡ₚ ballots pp'
    ∧ candidates pp = candidates pp'.
Proof.
  intros Hp Hh. do 2 eexists.
  split; [by apply fold_ok|].
  split; [by apply fold_ok, (hashable_Permutation pool)|].
  cbn [ballots candidates]. split; [|done].
  by apply fmap_Permutation, counts_Permutation.
Qed.

(** An instance: the same three rankings in two orders; the ballots
    come out in two different orders. *)
Lemma fold_rearranged_witness :
  ∃ pp pp',
    ballot_pool_to_profile (str_pool [["a"]; ["b"]; ["a"]]) ["a"; "b"] = Ok pp
    ∧ ballot_pool_to_profile (str_pool [["b"]; ["a"]; ["a"]]) ["a"; "b"] = Ok pp'
    ∧ ballots pp ≡ₚ ballots pp'
    ∧ candidates pp = candidates pp'.
Proof.
  apply (fold_rearranged (str_pool [["a"]; ["b"]; ["a"]])
                         (str_pool [["b"]; ["a"]; ["a"]]) ["a"; "b"]).
  - apply perm_swap.
  - reflexivity.
Defined.

Lemma ranking_keys_snoc pool r :
  ranking_keys (pool ++ [r])
  = if decide (r ∈ ranking_keys pool) then ranking_keys pool
    else ranking_keys pool ++ [r].
Proof.
  unfold ranking_keys, counts. rewrite fold_left_app. cbn [fold_left].
  apply dict_keys_set.
Qed.

Lemma ranking_keys_first_occurrences pool :
  ranking_keys pool = first_occurrences pool.
Proof.
  induction pool as [|r pool IH] using rev_ind; [done|].
  rewrite ranking_keys_snoc. unfold first_occurrences.
  rewrite fold_left_app. cbn [fold_left]. fold (first_occurrences pool).
  by rewrite IH.
Qed.

(** X3. Closed form of the fold: the ballots are, in the order in which
    the distinct rankings first occur in the pool, one ballot per
    distinct ranking, with each candidate turned into a set and the
    number of occurrences of the ranking as weight. *)
Theorem fold_closed_form pool cands :
  match ballot_pool_to_profile pool cands with
  | Ok pp =>
      ballots pp
      = (fun k => Ballot_new (py_set <$> k)
                             (Fraction (Z.of_nat (occurrences k pool))))
          <$> first_occurrences pool
      ∧ candidates pp = list_to_set cands
  | Err e => forallb tuple_hashable pool = false
  end.
Proof.
  destruct (forallb tuple_hashable pool) eqn:Hh.
  - rewrite fold_ok by done. cbn [ballots candidates]. split; [|done].
    rewrite <- ranking_keys_first_occurrences. unfold ranking_keys, dict_keys.
    rewrite <- list_fmap_compose. apply list_fmap_ext.
    intros i [k c] Hi. apply list_elem_of_lookup_2 in Hi.
    by destruct (counts_entries _ _ _ Hi) as (-> & _ & _).
  - by rewrite fold_unhashable.
Qed.

(** ** One-character names *)

Lemma py_set_one_character (c : string) :
  String.length c = 1%nat → py_set (PyStr c) = {[c]}.
Proof.
  destruct c as [|a [|b c]]; [done| |done]. intros _.
  cbn [py_set str_iter list_to_set]. apply (right_id_L ∅ (∪)).
Qed.

Lemma blocks_one_character (r : list string) :
  Forall (fun c => String.length c = 1%nat) r →
  py_set <$> (PyStr <$> r) = (fun c => {[c]}) <$> r.
Proof.
  induction 1 as [|c r Hc _ IH]; [done|].
  rewrite !fmap_cons, IH, py_set_one_character; done.
Qed.

Lemma singletons_inj (r r' : list string) :
  (fun c => ({[c]} : gset string)) <$> r = (fun c => {[c]}) <$> r' → r = r'.
Proof.
  apply (list_fmap_eq_inj (singleton (B:=gset string))). apply _.
Qed.

Lemma occurrences_str_pool (r : list string) (pool : list (list string)) :
  occurrences (PyStr <$> r) (str_pool pool)
  = count_occ (decide_rel (=)) pool r.
Proof.
  unfold occurrences, str_pool. induction pool as [|r' pool IH]; [done|].
  cbn [map count_occ]. rewrite IH.
  destruct (decide_rel eq r' r) as [Heq0|Hne];
    destruct (decide_rel eq (map PyStr r') (PyStr <$> r)) as [Heq|Hne'].
  - done.
  - destruct Hne'. by rewrite Heq0.
  - destruct Hne. revert Heq. apply (list_fmap_eq_inj PyStr).
    by intros x y [= ->].
  - done.
Qed.

(** X4. When every candidate name in the pool is one character long,
    the folded profile has exactly one ballot per distinct ranking: the
    rankings of the ballots are pairwise different, each is a ranking of
    the pool with every candidate in a block of its own, and its weight
    is the number of times that ranking occurs in the pool. *)
Theorem fold_one_character_names (pool : list (list string)) (cands : list string) :
  Forall (Forall (fun c => String.length c = 1%nat)) pool →
  ∃ pp, ballot_pool_to_profile (str_pool pool) cands = Ok pp
        ∧ NoDup (ranking <$> ballots pp)
        ∧ ∀ b, b ∈ ballots pp →
               ∃ r, r ∈ pool
                    ∧ ranking b = (fun c => {[c]}) <$> r
                    ∧ weight b
                      = Fraction (Z.of_nat (count_occ (decide_rel (=)) pool r)).
Proof.
  intros Hone.
  assert (Hblocks : ∀ k, k ∈ str_pool pool →
            ∃ r, r ∈ pool ∧ k = PyStr <$> r
                 ∧ py_set <$> k = (fun c => {[c]}) <$> r).
  { intros k Hk. unfold str_pool in Hk.
    apply list_elem_of_fmap in Hk as (r & -> & Hr). exists r.
    split_and!; [done|done|]. apply blocks_one_character.
    by apply (proj1 (Forall_forall _ _) Hone). }
  destruct (fold_distinct_when_injective (str_pool pool) cands)
    as (pp & Hpp & Hnd & Hbs).
  - apply str_pool_hashable.
  - intros k k' Hk Hk' Heq.
    destruct (Hblocks k Hk) as (r & _ & -> & Hr).
    destruct (Hblocks k' Hk') as (r' & _ & -> & Hr').
    rewrite Hr, Hr' in Heq. by rewrite (singletons_inj _ _ Heq).
  - exists pp. split_and!; [done|done|]. intros b Hb.
    destruct (Hbs b Hb) as (k & Hk & Hrank & Hw & _).
    destruct (Hblocks k Hk) as (r & Hr & -> & Hset).
    exists r. split_and!; [done|by rewrite Hrank|].
    by rewrite Hw, occurrences_str_pool.
Qed.

(** An instance: three rankings over the names a and b. *)
Lemma fold_one_character_names_witness :
  ∃ pp, ballot_pool_to_profile
          (str_pool [["a"; "b"]; ["b"; "a"]; ["a"; "b"]]) ["a"; "b"] = Ok pp
        ∧ NoDup (ranking <$> ballots pp)
        ∧ ∀ b, b ∈ ballots pp →
               ∃ r, r ∈ [["a"; "b"]; ["b"; "a"]; ["a"; "b"]]
                    ∧ ranking b = (fun c => {[c]}) <$> r
                    ∧ weight b
                      = Fraction (Z.of_nat (count_occ (decide_rel (=))
                          [["a"; "b"]; ["b"; "a"]; ["a"; "b"]] r)).
Proof.
  apply (fold_one_character_names
           [["a"; "b"]; ["b"; "a"]; ["a"; "b"]] ["a"; "b"]).
  repeat constructor.
Defined.

(** ** remove_empty_ballots: what is kept and what is dropped *)

Lemma filter_nonempty_idemp (bs : list Ballot) :
  filter (fun b => ranking b ≠ []) (filter (fun b => ranking b ≠ []) bs)
  = filter (fun b => ranking b ≠ []) bs.
Proof.
  induction bs as [|b bs IH]; [done|].
  destruct (decide (ranking b ≠ [])) as [Hb|Hb].
  - rewrite !filter_cons_True by done. by rewrite IH.
  - by rewrite filter_cons_False by done.
Qed.

Lemma remove_empty_ballots_view h refs cands bs keep_candidates :
  Forall2 (fun r b => h !! r = Some b) refs bs →
  ∃ cands',
    remove_empty_ballots h (mkProfileObj refs cands) keep_candidates
    = Some (mkProfileObj
              (seq (length h) (length (filter (fun b => ranking b ≠ []) bs)))
              cands',
            h ++ filter (fun b => ranking b ≠ []) bs).
Proof.
  intros Hbs. unfold remove_empty_ballots. cbn [ballot_refs obj_candidates].
  rewrite (copy_nonempty_spec refs h bs Hbs). cbn [mbind option_bind].
  unfold ProfileObj_new.
  assert (Hfs : mapM (fun r => (h ++ filter (fun b => ranking b ≠ []) bs) !! r)
                  (seq (length h) (length (filter (fun b => ranking b ≠ []) bs)))
                = Some (filter (fun b => ranking b ≠ []) bs)).
  { apply mapM_Some, lookups_fresh. }
  destruct keep_candidates; rewrite Hfs; by eexists.
Qed.

(** X5. The profile [remove_empty_ballots] returns has no ballot with an
    empty ranking, and cleaning it again returns a profile with the same
    ballots: cleaning twice is cleaning once. *)
Theorem remove_empty_ballots_twice h pp keep_candidates keep_candidates' :
  Forall (fun r => r < length h)%nat (ballot_refs pp) →
  ∃ pp1 h1 pp2 h2 bs,
    remove_empty_ballots h pp keep_candidates = Some (pp1, h1)
    ∧ remove_empty_ballots h1 pp1 keep_candidates' = Some (pp2, h2)
    ∧ ballots <$> view h1 pp1 = Some bs
    ∧ ballots <$> view h2 pp2 = Some bs
    ∧ Forall (fun b => ranking b ≠ []) bs.
Proof.
  intros Hvalid. destruct (refs_valid_lookups _ _ Hvalid) as [bs Hbs].
  destruct pp as [refs cands]. cbn [ballot_refs] in *.
  set (fs := filter (fun b => ranking b ≠ []) bs).
  destruct (remove_empty_ballots_view h refs cands bs keep_candidates Hbs)
    as [cands1 H1]. fold fs in H1.
  assert (Hfs : Forall2 (fun r b => (h ++ fs) !! r = Some b)
                        (seq (length h) (length fs)) fs)
    by apply lookups_fresh.
  destruct (remove_empty_ballots_view (h ++ fs) _ cands1 fs keep_candidates' Hfs)
    as [cands2 H2].
  assert (Hidem : filter (fun b => ranking b ≠ []) fs = fs)
    by apply filter_nonempty_idemp.
  rewrite Hidem in H2.
  eexists _, _, _, _, fs. split; [exact H1|]. split; [exact H2|].
  split_and!.
  - by rewrite (view_lookups _ _ _ fs).
  - rewrite (view_lookups _ _ _ fs); [done|]. apply lookups_fresh.
  - apply Forall_forall. intros b Hb. by apply list_elem_of_filter in Hb as [? _].
Qed.

(** An instance: the sample store and profile. *)
Lemma remove_empty_ballots_twice_witness :
  ∃ pp1 h1 pp2 h2 bs,
    remove_empty_ballots Sample.store Sample.profile true = Some (pp1, h1)
    ∧ remove_empty_ballots h1 pp1 false = Some (pp2, h2)
    ∧ ballots <$> view h1 pp1 = Some bs
    ∧ ballots <$> view h2 pp2 = Some bs
    ∧ Forall (fun b => ranking b ≠ []) bs.
Proof.
  apply (remove_empty_ballots_twice Sample.store Sample.profile true false).
  repeat constructor.
Defined.

Lemma total_weight_filter (bs : list Ballot) :
  (foldr Qcplus 0 (weight <$> bs)
   = foldr Qcplus 0 (weight <$> filter (fun b => ranking b ≠ []) bs)
     + foldr Qcplus 0 (weight <$> filter (fun b => ranking b = []) bs))%Qc.
Proof.
  induction bs as [|b bs IH]; [by apply Qc_is_canon|].
  rewrite fmap_cons. cbn [foldr]. rewrite IH.
  destruct (decide (ranking b = [])) as [Hb|Hb].
  - rewrite (filter_cons_True (fun b => ranking b = [])) by done.
    rewrite (filter_cons_False (fun b => ranking b ≠ [])); [|by intros ?].
    rewrite fmap_cons. cbn [foldr]. ring.
  - rewrite (filter_cons_False (fun b => ranking b = [])) by done.
    rewrite (filter_cons_True (fun b => ranking b ≠ [])) by done.
    rewrite fmap_cons. cbn [foldr]. ring.
Qed.

(** X6. Cleaning loses exactly the weight of the ballots without a
    ranking: the total weight of the input is the total weight of the
    output plus the weights of the input's empty ballots. *)
Theorem remove_empty_ballots_weight h pp keep_candidates :
  Forall (fun r => r < length h)%nat (ballot_refs pp) →
  ∃ input pp_clean h' output,
    view h pp = Some input
    ∧ remove_empty_ballots h pp keep_candidates = Some (pp_clean, h')
    ∧ view h' pp_clean = Some output
    ∧ (total_weight input
       = total_weight output
         + foldr Qcplus 0
             (weight <$> filter (fun b => ranking b = []) (ballots input)))%Qc.
Proof.
  intros Hvalid. destruct (refs_valid_lookups _ _ Hvalid) as [bs Hbs].
  destruct pp as [refs cands]. cbn [ballot_refs] in *.
  destruct (remove_empty_ballots_view h refs cands bs keep_candidates Hbs)
    as [cands1 H1].
  eexists _, _, _, _. split; [by apply view_lookups|].
  split; [exact H1|]. split; [apply view_lookups, lookups_fresh|].
  unfold total_weight. cbn [ballots]. apply total_weight_filter.
Qed.

(** An instance: the sample store and profile. *)
Lemma remove_empty_ballots_weight_witness :
  ∃ input pp_clean h' output,
    view Sample.store Sample.profile = Some input
    ∧ remove_empty_ballots Sample.store Sample.profile false
      = Some (pp_clean, h')
    ∧ view h' pp_clean = Some output
    ∧ (total_weight input
       = total_weight output
         + foldr Qcplus 0
             (weight <$> filter (fun b => ranking b = []) (ballots input)))%Qc.
Proof.
  apply (remove_empty_ballots_weight Sample.store Sample.profile false).
  repeat constructor.
Defined.

(** ** The enumeration of the rankings *)

Section Permutations.
Context {A : Type}.
Implicit Types (l p rest : list A) (x : A).

Lemma picks_Permutation l x rest : (x, rest) ∈ picks l → x :: rest ≡ₚ l.
Proof.
  revert x rest. induction l as [|a l IH]; intros x rest Hin.
  - by apply elem_of_nil in Hin.
  - cbn [picks] in Hin. apply elem_of_cons in Hin as [[= -> ->]|Hin]; [done|].
    change (map ?f ?k) with (f <$> k) in Hin.
    apply list_elem_of_fmap in Hin as ([y r] & [= -> ->] & Hyr).
    rewrite perm_swap. by rewrite (IH _ _ Hyr).
Qed.

Lemma picks_member l x : x ∈ l → ∃ rest, (x, rest) ∈ picks l.
Proof.
  induction l as [|a l IH]; intros Hx; [by apply elem_of_nil in Hx|].
  apply elem_of_cons in Hx as [->|Hx].
  - exists l. cbn [picks]. apply list_elem_of_here.
  - destruct (IH Hx) as [rest Hrest]. exists (a :: rest). cbn [picks].
    apply list_elem_of_further. change (map ?f ?k) with (f <$> k).
    apply list_elem_of_fmap. by exists (x, rest).
Qed.

Lemma picks_length l : length (picks l) = length l.
Proof.
  induction l as [|a l IH]; [done|].
  cbn [picks length]. by rewrite length_map, IH.
Qed.

Lemma it_permutations_S r l p :
  p ∈ it_permutations (S r) l ↔
  ∃ x rest p', p = x :: p' ∧ (x, rest) ∈ picks l
               ∧ p' ∈ it_permutations r rest.
Proof.
  cbn [it_permutations]. rewrite list_elem_of_In, in_flat_map. split.
  - intros ([x rest] & Hpick & Hp). apply list_elem_of_In in Hpick, Hp.
    change (map ?f ?k) with (f <$> k) in Hp.
    apply list_elem_of_fmap in Hp as (p' & -> & Hp'). by exists x, rest, p'.
  - intros (x & rest & p' & -> & Hpick & Hp'). exists (x, rest).
    split; [by apply list_elem_of_In|].
    apply list_elem_of_In. change (map ?f ?k) with (f <$> k).
    apply list_elem_of_fmap. by exists p'.
Qed.

(** Every enumerated ranking has [r] entries and, completed by the
    elements it leaves out, is a rearrangement of the list. *)
Lemma it_permutations_sound r : ∀ l p,
  p ∈ it_permutations r l → length p = r ∧ ∃ rest, p ++ rest ≡ₚ l.
Proof.
  induction r as [|r IH]; intros l p Hp.
  - apply list_elem_of_singleton in Hp as ->. split; [done|by exists l].
  - apply it_permutations_S in Hp as (x & rest & p' & -> & Hpick & Hp').
    destruct (IH _ _ Hp') as (Hlen & rest' & Hperm).
    split; [by rewrite <- Hlen|]. exists rest'.
    rewrite <- (picks_Permutation _ _ _ Hpick). cbn [app]. by rewrite Hperm.
Qed.

(** Every ranking of [r] different elements of the list is enumerated. *)
Lemma it_permutations_complete p : ∀ l,
  NoDup p → p ⊆ l → p ∈ it_permutations (length p) l.
Proof.
  induction p as [|x p IH]; intros l Hnd Hsub.
  - apply list_elem_of_here.
  - apply NoDup_cons in Hnd as [Hx Hnd].
    destruct (picks_member l x) as [rest Hpick].
    { apply Hsub, list_elem_of_here. }
    cbn [length]. apply it_permutations_S. exists x, rest, p.
    split_and!; [done|done|]. apply IH; [done|].
    intros y Hy.
    assert (Hyl : y ∈ x :: rest).
    { rewrite (picks_Permutation _ _ _ Hpick).
      by apply Hsub, list_elem_of_further. }
    apply elem_of_cons in Hyl as [->|?]; [done|done].
Qed.

Lemma length_flat_map_sum {B} (f : B → list (list A)) (xs : list B) :
  length (flat_map f xs) = sum_list ((fun b => length (f b)) <$> xs).
Proof.
  induction xs as [|b xs IH]; [done|].
  cbn [flat_map]. by rewrite length_app, IH.
Qed.

Lemma it_permutations_length r : ∀ l,
  length (it_permutations r l) = arrangements (length l) r.
Proof.
  induction r as [|r IH]; intros l; [done|].
  cbn [it_permutations arrangements]. rewrite length_flat_map_sum.
  rewrite (sum_list_fmap_same (arrangements (length l - 1) r)).
  - by rewrite picks_length.
  - apply Forall_forall. intros [x rest] Hpick.
    rewrite length_map, IH.
    apply picks_Permutation, Permutation_length in Hpick.
    cbn [length] in Hpick. f_equal. lia.
Qed.
End Permutations.

Lemma arrangements_zero r : ∀ n, (n < r)%nat → arrangements n r = 0%nat.
Proof.
  induction r as [|r IH]; intros n Hn; [lia|].
  cbn [arrangements]. destruct n as [|n]; [done|].
  rewrite IH; lia.
Qed.

Lemma arrangements_pos r : ∀ n, (r ≤ n)%nat → (0 < arrangements n r)%nat.
Proof.
  induction r as [|r IH]; intros n Hn; cbn [arrangements]; [lia|].
  specialize (IH (n - 1)%nat). nia.
Qed.

(** X7. The list of rankings that IC, IAC and Bradley-Terry enumerate
    before sampling has n * (n - 1) * ... * (n - r + 1) entries for n
    candidates and ballots of length r; it is empty when the ballots are
    longer than the candidate list. *)
Theorem perm_rankings_length (self : Ballot_Generator.t) :
  length (IC.perm_rankings self)
  = arrangements (length (Ballot_Generator.candidates self))
                 (Ballot_Generator.ballot_length self)
  ∧ (IC.perm_rankings self = []
     ↔ (length (Ballot_Generator.candidates self)
        < Ballot_Generator.ballot_length self)%nat).
Proof.
  unfold IC.perm_rankings.
  pose proof (it_permutations_length (Ballot_Generator.ballot_length self)
                (Ballot_Generator.candidates self)) as Hlen.
  split; [done|]. rewrite <- length_zero_iff_nil, Hlen. split.
  - intros Hz.
    destruct (decide (length (Ballot_Generator.candidates self)
                      < Ballot_Generator.ballot_length self)%nat); [done|].
    pose proof (arrangements_pos (Ballot_Generator.ballot_length self)
                  (length (Ballot_Generator.candidates self))). lia.
  - apply arrangements_zero.
Qed.

(** X8. With pairwise different candidates, the enumerated rankings are
    exactly the rankings of [ballot_length] different candidates. *)
Theorem perm_rankings_complete (self : Ballot_Generator.t) (p : list string) :
  NoDup (Ballot_Generator.candidates self) →
  p ∈ IC.perm_rankings self
  ↔ length p = Ballot_Generator.ballot_length self
    ∧ NoDup p ∧ p ⊆ Ballot_Generator.candidates self.
Proof.
  unfold IC.perm_rankings. intros Hnd. split.
  - intros Hp. destruct (it_permutations_sound _ _ _ Hp) as (Hlen & rest & Hperm).
    rewrite <- Hperm in Hnd. apply NoDup_app in Hnd as (Hp' & _ & _).
    split_and!; [done|done|]. intros x Hx. rewrite <- Hperm.
    apply elem_of_app. by left.
  - intros (<- & Hp & Hsub). by apply it_permutations_complete.
Qed.

(** An instance: three candidates, ballots of length 2. *)
Lemma perm_rankings_complete_witness :
  ["c"; "a"] ∈ IC.perm_rankings Sample.three_candidates
  ↔ length ["c"; "a"] = Ballot_Generator.ballot_length Sample.three_candidates
    ∧ NoDup ["c"; "a"]
    ∧ ["c"; "a"] ⊆ Ballot_Generator.candidates Sample.three_candidates.
Proof.
  apply (perm_rankings_complete Sample.three_candidates ["c"; "a"]).
  apply (bool_decide_unpack _). by vm_compute.
Defined.

(** ** IC *)

Lemma fold_str_pool_total (pool : list (list string)) cands :
  ∃ pp, ballot_pool_to_profile (str_pool pool) cands = Ok pp
        ∧ total_weight pp = Fraction (Z.of_nat (length pool)).
Proof.
  eexists. split; [apply fold_ok, str_pool_hashable|].
  unfold total_weight. cbn [ballots].
  rewrite weights_of_counts, Fraction_sum, sum_values_counts.
  unfold str_pool. by rewrite length_map.
Qed.

Lemma rand_repeat_Forall {G A} (P : A → Prop) (body : rand G A) n :
  (∀ g, ∃ a g', body g = Ok (a, g') ∧ P a) →
  ∀ g, ∃ l g', rand_repeat n body g = Ok (l, g') ∧ length l = n ∧ Forall P l.
Proof.
  intros Hbody. induction n as [|n IH]; intros g.
  - exists [], g. by split_and!.
  - destruct (Hbody g) as (a & g1 & Ha & HP).
    destruct (IH g1) as (l & g2 & Hl & Hlen & HPl).
    exists (a :: l), g2. cbn [rand_repeat].
    rewrite (rand_bind_ok _ _ _ _ _ Ha), (rand_bind_ok _ _ _ _ _ Hl).
    split_and!; [done|by rewrite <- Hlen|by constructor].
Qed.

Lemma py_getitem_in_range {A} (l : list A) (i : Z) :
  (0 ≤ i ≤ Z.of_nat (length l) - 1)%Z →
  ∃ x, py_getitem l i = Ok x ∧ x ∈ l.
Proof.
  intros Hi. unfold py_getitem. rewrite decide_True by lia.
  destruct (lookup_lt_is_Some_2 l (Z.to_nat i)) as [x Hx]; [lia|].
  exists x. rewrite Hx. split; [done|]. by eapply list_elem_of_lookup_2.
Qed.

(** X9. When the ballots are not longer than the candidate list and
    [randint] returns a number within its bounds, IC returns a profile:
    the pool has [number_of_ballots] rankings (none if that number is
    negative), each one of the enumerated rankings, and the profile's
    total weight is the size of the pool. *)
Theorem IC_generates {G} (randint : Z → Z → rand G Z) (self : Ballot_Generator.t) :
  (Ballot_Generator.ballot_length self
   ≤ length (Ballot_Generator.candidates self))%nat →
  (∀ a b g, (a ≤ b)%Z → ∃ i g', randint a b g = Ok (i, g') ∧ (a ≤ i ≤ b)%Z) →
  ∀ g, ∃ pool pp g',
    IC.ballot_pool randint self g = Ok (pool, g')
    ∧ IC.generate_ballots randint self g = Ok (pp, g')
    ∧ length pool = Z.to_nat (Ballot_Generator.number_of_ballots self)
    ∧ Forall (fun ranking => ranking ∈ IC.perm_rankings self) pool
    ∧ total_weight pp
      = Fraction (Z.max 0 (Ballot_Generator.number_of_ballots self)).
Proof.
  intros Hlen Hrandint g.
  assert (Hpos : (0 < length (IC.perm_rankings self))%nat).
  { destruct (perm_rankings_length self) as [-> _]. by apply arrangements_pos. }
  destruct (rand_repeat_Forall (fun ranking => ranking ∈ IC.perm_rankings self)
              (IC.draw randint self)
              (Z.to_nat (Ballot_Generator.number_of_ballots self)))
    with (g := g) as (pool & g' & Hpool & Hsize & Hmem).
  { intros g0. unfold IC.draw.
    destruct (Hrandint 0%Z (Z.of_nat (length (IC.perm_rankings self)) - 1)%Z g0)
      as (i & g1 & Hi & Hrange); [lia|].
    destruct (py_getitem_in_range (IC.perm_rankings self) i Hrange)
      as (ranking & Hget & Hin).
    exists ranking, g1. split; [|done].
    by rewrite (rand_bind_ok _ _ _ _ _ Hi), Hget. }
  destruct (fold_str_pool_total pool (Ballot_Generator.candidates self))
    as (pp & Hpp & Hweight).
  exists pool, pp, g'. split_and!; [done| |done|done|].
  - unfold IC.generate_ballots.
    rewrite (rand_bind_ok _ _ _ _ _ Hpool). cbn [call_ballot_pool_to_profile].
    by rewrite Hpp.
  - rewrite Hweight, Hsize. f_equal. lia.
Qed.

(** An instance: four ballots of length 2 over three candidates. *)
Lemma IC_generates_witness :
  ∃ pool pp g',
    IC.ballot_pool SampleDraws.randint_low Sample.three_candidates tt
    = Ok (pool, g')
    ∧ IC.generate_ballots SampleDraws.randint_low Sample.three_candidates tt
      = Ok (pp, g')
    ∧ length pool = 4%nat
    ∧ Forall (fun ranking => ranking ∈ IC.perm_rankings Sample.three_candidates)
             pool
    ∧ total_weight pp = Fraction 4.
Proof.
  apply (IC_generates SampleDraws.randint_low Sample.three_candidates).
  - vm_compute. lia.
  - intros a b g Hab. exists a, g. unfold SampleDraws.randint_low.
    rewrite decide_True by done. split; [done|lia].
Defined.

(** X10. When the ballots are longer than the candidate list there is
    no ranking to draw: [randint] is asked for a number between 0 and
    -1, and IC raises [ValueError] as soon as one ballot is requested. *)
Theorem IC_no_ranking {G} (randint : Z → Z → rand G Z) (self : Ballot_Generator.t) :
  (length (Ballot_Generator.candidates self)
   < Ballot_Generator.ballot_length self)%nat →
  (0 < Ballot_Generator.number_of_ballots self)%Z →
  (∀ a b g, (b < a)%Z → randint a b g = Err ValueError) →
  ∀ g, IC.generate_ballots randint self g = Err ValueError.
Proof.
  intros Hlen Hn Hrandint g.
  destruct (perm_rankings_length self) as [_ Hnil].
  unfold IC.generate_ballots, IC.ballot_pool.
  apply rand_bind_err. apply rand_repeat_err; [|lia].
  intros g0. unfold IC.draw. apply rand_bind_err.
  rewrite (proj2 Hnil Hlen). by apply Hrandint.
Qed.

(** An instance: ballots of length 2 over one candidate. *)
Lemma IC_no_ranking_witness :
  IC.generate_ballots SampleDraws.randint_low
    (Ballot_Generator.init 1 ["a"] (Some 2%nat)) tt = Err ValueError.
Proof.
  apply (IC_no_ranking SampleDraws.randint_low
           (Ballot_Generator.init 1 ["a"] (Some 2%nat))).
  - vm_compute. lia.
  - reflexivity.
  - intros a b g Hab. unfold SampleDraws.randint_low.
    by rewrite decide_False by lia.
Defined.

(** ** PlackettLuce: the size of the pool *)

Lemma rand_for_fails {G A B} (body : A → rand G B) xs x :
  x ∈ xs → (∀ g, is_Ok (body x g) = false) →
  ∀ g, is_Ok (rand_for xs body g) = false.
Proof.
  intros Hx Hfail. induction xs as [|y xs IH]; intros g.
  - by apply elem_of_nil in Hx.
  - cbn [rand_for]. unfold rand_bind at 1.
    destruct (body y g) as [[b g1]|e] eqn:Hy; [|done].
    apply elem_of_cons in Hx as [->|Hx].
    + specialize (Hfail g). by rewrite Hy in Hfail.
    + unfold rand_bind. specialize (IH Hx g1).
      by destruct (rand_for xs body g1) as [[bs g2]|e].
Qed.

Lemma supports_missing (pref_interval_dict : list (string * Q)) cands c :
  c ∈ cands → dict_get c pref_interval_dict = None →
  result_mapM (fun cand => from_key (dict_get cand pref_interval_dict)) cands
  = Err KeyError.
Proof.
  intros Hc Hnone. induction cands as [|c' cands IH].
  - by apply elem_of_nil in Hc.
  - cbn [result_mapM]. destruct (dict_get c' pref_interval_dict) as [s|] eqn:Hc'.
    + cbn [from_key mbind result_bind]. rewrite IH; [done|].
      apply elem_of_cons in Hc as [->|Hc]; [congruence|done].
    + done.
Qed.

(** The count of a bloc, as the loop over the blocs computes it. *)
Lemma PlackettLuce_pool_size_aux {G}
    (choice : list string → nat → list Q → rand G (list string))
    (self : PlackettLuce.t) :
  (∀ race, race ∈ dict_keys (PlackettLuce.slate_voter_prop self) →
     ∃ pref_interval_dict,
       dict_get race (PlackettLuce.pref_interval_by_slate self)
       = Some pref_interval_dict
       ∧ Forall (fun c => is_Some (dict_get c pref_interval_dict))
                (Ballot_Generator.candidates (PlackettLuce.base self))) →
  (∀ p g, ∃ ballot g',
     choice (Ballot_Generator.candidates (PlackettLuce.base self))
            (Ballot_Generator.ballot_length (PlackettLuce.base self)) p g
     = Ok (ballot, g')) →
  ∀ g, ∃ pool g',
    PlackettLuce.ballot_pool choice self g = Ok (pool, g')
    ∧ length pool
      = sum_list ((fun race =>
                     match dict_get race (PlackettLuce.slate_voter_prop self) with
                     | Some prop => Z.to_nat (PlackettLuce.num_ballots_race self prop)
                     | None => 0%nat
                     end) <$> dict_keys (PlackettLuce.slate_voter_prop self)).
Proof.
  intros Hblocs Hchoice g. unfold PlackettLuce.ballot_pool.
  edestruct (rand_for_ok
    (fun race (drawn : list (list string)) =>
       length drawn
       = match dict_get race (PlackettLuce.slate_voter_prop self) with
         | Some prop => Z.to_nat (PlackettLuce.num_ballots_race self prop)
         | None => 0%nat
         end)
    (PlackettLuce.draw_race choice self)
    (dict_keys (PlackettLuce.slate_voter_prop self)))
    as (per_race & g' & Hper & Hall).
  { intros race Hrace g0.
    destruct (Hblocs race Hrace) as (pref & Hpref & Hsup).
    destruct (supports_ok _ _ Hsup) as [vec Hvec].
    assert (Hprop : is_Some (dict_get race (PlackettLuce.slate_voter_prop self))).
    { destruct (dict_get race (PlackettLuce.slate_voter_prop self)) eqn:Hget;
        [by eexists|]. by apply dict_get_None in Hget. }
    destruct Hprop as [prop Hprop].
    destruct (rand_repeat_ok
                (choice (Ballot_Generator.candidates (PlackettLuce.base self))
                        (Ballot_Generator.ballot_length (PlackettLuce.base self))
                        vec)
                (Z.to_nat (PlackettLuce.num_ballots_race self prop))
                (Hchoice vec) g0) as (drawn & g1 & Hdrawn & Hlen).
    exists drawn, g1. rewrite Hprop. split; [|done].
    unfold PlackettLuce.draw_race.
    rewrite (rand_bind_lift_ok _ _ _ prop) by (by rewrite Hprop).
    rewrite (rand_bind_lift_ok _ _ _ pref) by (by rewrite Hpref).
    by rewrite (rand_bind_lift_ok _ _ _ vec) by done. }
  exists (concat per_race), g'.
  rewrite (rand_bind_ok _ _ _ _ _ Hper). split; [done|].
  clear Hper Hblocs. induction Hall as [|race drawn races per_race Hlen _ IH].
  - done.
  - rewrite fmap_cons. cbn [concat]. by rewrite length_app, IH, Hlen.
Qed.


Lemma sample_blocs_complete (self : PlackettLuce.t) :
  forallb (fun race =>
    match dict_get race (PlackettLuce.pref_interval_by_slate self) with
    | Some pref =>
        forallb (fun c => bool_decide (is_Some (dict_get c pref)))
                (Ballot_Generator.candidates (PlackettLuce.base self))
    | None => false
    end) (dict_keys (PlackettLuce.slate_voter_prop self)) = true →
  ∀ race, race ∈ dict_keys (PlackettLuce.slate_voter_prop self) →
    ∃ pref_interval_dict,
      dict_get race (PlackettLuce.pref_interval_by_slate self)
      = Some pref_interval_dict
      ∧ Forall (fun c => is_Some (dict_get c pref_interval_dict))
               (Ballot_Generator.candidates (PlackettLuce.base self)).
Proof.
  rewrite forallb_forall. intros Hall race Hrace.
  apply list_elem_of_In, Hall in Hrace.
  destruct (dict_get race (PlackettLuce.pref_interval_by_slate self))
    as [pref|]; [|done].
  exists pref. split; [done|]. apply Forall_forall. intros c Hc.
  rewrite forallb_forall in Hrace. apply list_elem_of_In, Hrace in Hc.
  by apply bool_decide_eq_true_1 in Hc.
Qed.


Section Truncation.
Open Scope Q_scope.

Lemma trunc_bounds (n : Z) (x : pynum) :
  (0 <= n)%Z → 0 <= PlackettLuce.prop_value x →
  (0 <= py_int (py_mul_int n x))%Z
  ∧ inject_Z (py_int (py_mul_int n x)) <= inject_Z n * PlackettLuce.prop_value x
  ∧ inject_Z n * PlackettLuce.prop_value x
    < inject_Z (py_int (py_mul_int n x)) + 1.
Proof.
  intros Hn Hx.
  destruct x as [z|q]; cbn [py_mul_int py_int PlackettLuce.prop_value] in *.
  - assert (0 <= z)%Z by (unfold Qle in Hx; simpl in Hx; lia).
    rewrite inject_Z_mult. split; [nia|]. split; lra.
  - assert (Hnq : 0 <= inject_Z n * q).
    { apply Qmult_le_0_compat; [|done]. unfold Qle. simpl. lia. }
    set (y := inject_Z n * q) in *.
    assert (Hnum : (0 <= Qnum y)%Z).
    { destruct y as [a b]. unfold Qle in Hnq. simpl in *. lia. }
    rewrite Z.quot_div_nonneg by lia.
    assert (Hfl : (Qnum y / Z.pos (Qden y))%Z = Qfloor y) by (by destruct y).
    rewrite Hfl. split_and!.
    + rewrite <- Hfl. apply Z.div_pos; lia.
    + apply Qfloor_le.
    + pose proof (Qlt_floor y) as Hlt. by rewrite inject_Z_plus in Hlt.
Qed.

(** The truncated counts of a list of proportions add up to at most
    n times their sum, and fall short of it by less than one per
    proportion. *)
Lemma trunc_sum_bounds (n : Z) (props : list pynum) :
  (0 <= n)%Z → Forall (fun x => 0 <= PlackettLuce.prop_value x) props →
  inject_Z (Z.of_nat (sum_list ((fun x => Z.to_nat (py_int (py_mul_int n x)))
                                  <$> props)))
  <= inject_Z n * foldr Qplus 0 (PlackettLuce.prop_value <$> props)
  ∧ inject_Z n * foldr Qplus 0 (PlackettLuce.prop_value <$> props)
    <= inject_Z (Z.of_nat (sum_list ((fun x => Z.to_nat (py_int (py_mul_int n x)))
                                       <$> props)))
       + inject_Z (Z.of_nat (length props)).
Proof.
  intros Hn. induction 1 as [|x props Hx _ IH].
  - simpl. change (inject_Z (Z.of_nat 0)) with 0%Q. split; lra.
  - destruct (trunc_bounds n x Hn Hx) as (Hpos & Hle & Hlt).
    rewrite !fmap_cons. cbn [foldr length].
    change (sum_list (?a :: ?l)) with (a + sum_list l)%nat.
    rewrite !Nat2Z.inj_add, Nat2Z.inj_succ, Z2Nat.id by done.
    rewrite <- Z.add_1_r, !inject_Z_plus. change (inject_Z 1) with 1%Q.
    rewrite Qmult_plus_distr_r. destruct IH as [IH1 IH2].
    generalize dependent (inject_Z n * PlackettLuce.prop_value x).
    generalize dependent (inject_Z n * foldr Qplus 0
                            (PlackettLuce.prop_value <$> props)).
    intros; split; lra.
Qed.

Lemma trunc_sum_strict (n : Z) (props : list pynum) :
  (0 <= n)%Z → Forall (fun x => 0 <= PlackettLuce.prop_value x) props →
  props ≠ [] →
  inject_Z n * foldr Qplus 0 (PlackettLuce.prop_value <$> props)
  < inject_Z (Z.of_nat (sum_list ((fun x => Z.to_nat (py_int (py_mul_int n x)))
                                    <$> props)))
    + inject_Z (Z.of_nat (length props)).
Proof.
  intros Hn Hpos Hne. destruct props as [|x props]; [done|].
  apply Forall_cons in Hpos as [Hx Hpos].
  destruct (trunc_bounds n x Hn Hx) as (Hx0 & _ & Hlt).
  destruct (trunc_sum_bounds n props Hn Hpos) as [_ Hge].
  rewrite !fmap_cons. cbn [foldr length].
  change (sum_list (?a :: ?l)) with (a + sum_list l)%nat.
  rewrite !Nat2Z.inj_add, Nat2Z.inj_succ, Z2Nat.id by done.
  rewrite <- Z.add_1_r, !inject_Z_plus. change (inject_Z 1) with 1%Q.
  rewrite Qmult_plus_distr_r.
  generalize dependent (inject_Z n * PlackettLuce.prop_value x).
  generalize dependent (inject_Z n * foldr Qplus 0
                          (PlackettLuce.prop_value <$> props)).
  intros; lra.
Qed.
End Truncation.

Lemma dict_get_keys_values {K V} `{EqDecision K} (d : list (K * V)) :
  NoDup (dict_keys d) →
  (fun k => dict_get k d) <$> dict_keys d = Some <$> dict_values d.
Proof.
  intros Hnd. unfold dict_keys, dict_values. rewrite <- !list_fmap_compose.
  apply list_fmap_ext. intros i [k v] Hi. simpl.
  apply dict_get_NoDup; [done|]. by eapply list_elem_of_lookup_2.
Qed.



(** ** PlackettLuce: incomplete configurations *)

(** X13. When some bloc has no preference interval, or an interval
    without a support for some candidate, the draws of that bloc raise
    [KeyError] and [generate_ballots] never returns a profile, whatever
    the draws of the other blocs. *)
Theorem PlackettLuce_incomplete_never_returns {G}
    (choice : list string → nat → list Q → rand G (list string))
    (self : PlackettLuce.t) (race : string) :
  race ∈ dict_keys (PlackettLuce.slate_voter_prop self) →
  match dict_get race (PlackettLuce.pref_interval_by_slate self) with
  | None => True
  | Some pref_interval_dict =>
      ∃ c, c ∈ Ballot_Generator.candidates (PlackettLuce.base self)
           ∧ dict_get c pref_interval_dict = None
  end →
  ∀ g, is_Ok (PlackettLuce.generate_ballots choice self g) = false
       ∧ PlackettLuce.draw_race choice self race g = Err KeyError.
Proof.
  intros Hrace Hmissing.
  assert (Hfail : ∀ g, PlackettLuce.draw_race choice self race g = Err KeyError).
  { intros g. unfold PlackettLuce.draw_race.
    destruct (dict_get race (PlackettLuce.slate_voter_prop self)) as [prop|];
      [|done].
    rewrite (rand_bind_lift_ok _ _ _ prop) by done.
    destruct (dict_get race (PlackettLuce.pref_interval_by_slate self))
      as [pref|]; [|done].
    rewrite (rand_bind_lift_ok _ _ _ pref) by done.
    destruct Hmissing as (c & Hc & Hnone).
    unfold rand_bind, lift. by rewrite (supports_missing pref _ c). }
  intros g. split; [|done].
  unfold PlackettLuce.generate_ballots, PlackettLuce.ballot_pool.
  unfold rand_bind at 1. unfold rand_bind at 1.
  pose proof (rand_for_fails (PlackettLuce.draw_race choice self) _ race Hrace
                (fun g0 => eq_trans (f_equal is_Ok (Hfail g0)) eq_refl) g) as Hfor.
  by destruct (rand_for _ _ g) as [[per_race g1]|e].
Qed.

(** An instance: the second bloc has no preference interval. *)
Lemma PlackettLuce_incomplete_never_returns_witness :
  is_Ok (PlackettLuce.generate_ballots Sample.choice_first
           (PlackettLuce.mk (Ballot_Generator.init 5 ["a"; "b"] (Some 2%nat))
              [("white", [("a", 1 # 2); ("b", 1 # 2)])]
              [("white", PyFrac (4 # 5)); ("black", PyFrac (1 # 5))]) tt) = false
  ∧ PlackettLuce.draw_race Sample.choice_first
      (PlackettLuce.mk (Ballot_Generator.init 5 ["a"; "b"] (Some 2%nat))
         [("white", [("a", 1 # 2); ("b", 1 # 2)])]
         [("white", PyFrac (4 # 5)); ("black", PyFrac (1 # 5))]) "black" tt
    = Err KeyError.
Proof.
  apply (PlackettLuce_incomplete_never_returns Sample.choice_first
           (PlackettLuce.mk (Ballot_Generator.init 5 ["a"; "b"] (Some 2%nat))
              [("white", [("a", 1 # 2); ("b", 1 # 2)])]
              [("white", PyFrac (4 # 5)); ("black", PyFrac (1 # 5))]) "black").
  - apply (bool_decide_unpack _). by vm_compute.
  - exact I.
Defined.

(** ** BradleyTerry._calc_prob: values and errors *)

Section CalcProb.
Open Scope Qc_scope.
Context (cand_support_dict : list (string * Qc)).


Lemma supports_of_lookup ranking :
  Forall (positive_support cand_support_dict) ranking →
  Forall2 (fun c s => dict_get c cand_support_dict = Some s)
          ranking (supports_of cand_support_dict ranking)
  ∧ Forall (fun s => 0 < s) (supports_of cand_support_dict ranking).
Proof.
  unfold supports_of. induction 1 as [|c ranking (s & Hs & Hpos) _ [IH1 IH2]].
  - split; constructor.
  - rewrite fmap_cons, Hs. split; by constructor.
Qed.

Lemma ranking_prob_halved ranking :
  Forall (positive_support cand_support_dict) ranking →
  BradleyTerry.ranking_prob cand_support_dict ranking
  = Ok (halved_pairwise cand_support_dict ranking).
Proof.
  intros Hpos. destruct (supports_of_lookup ranking Hpos) as [Hlook Hall].
  rewrite (ranking_prob_value _ _ _ Hlook Hall).
  unfold halved_pairwise, supports_of. by rewrite length_fmap.
Qed.

Lemma calc_prob_loop_ok permutations : ∀ table,
  Forall (Forall (positive_support cand_support_dict)) permutations →
  BradleyTerry.calc_prob_loop cand_support_dict permutations table
  = Ok (fold_left (fun t r => dict_set r (halved_pairwise cand_support_dict r) t)
                  permutations table).
Proof.
  induction permutations as [|r permutations IH]; intros table Hpos; [done|].
  apply Forall_cons in Hpos as [Hr Hpos].
  cbn [BradleyTerry.calc_prob_loop fold_left].
  rewrite ranking_prob_halved by done. cbn [mbind result_bind]. by apply IH.
Qed.

Lemma table_lookup permutations : ∀ (table : list (list string * Qc)) r,
  dict_get r (fold_left (fun t r => dict_set r (halved_pairwise cand_support_dict r) t)
                        permutations table)
  = if decide (r ∈ permutations)
    then Some (halved_pairwise cand_support_dict r)
    else dict_get r table.
Proof.
  induction permutations as [|r' permutations IH]; intros table r.
  - cbn [fold_left]. rewrite decide_False; [done|apply not_elem_of_nil].
  - cbn [fold_left]. rewrite IH.
    destruct (decide (r ∈ permutations)) as [Hin|Hnin].
    + rewrite decide_True; [done|by apply list_elem_of_further].
    + destruct (decide (r = r')) as [->|Hne].
      * rewrite decide_True; [|apply list_elem_of_here].
        by rewrite dict_get_set_eq.
      * rewrite decide_False; [|by rewrite not_elem_of_cons].
        by rewrite dict_get_set_ne.
Qed.

Lemma table_keys permutations : ∀ (table : list (list string * Qc)) r,
  r ∈ dict_keys (fold_left
                   (fun t r => dict_set r (halved_pairwise cand_support_dict r) t)
                   permutations table)
  ↔ r ∈ dict_keys table ∨ r ∈ permutations.
Proof.
  induction permutations as [|r' permutations IH]; intros table r.
  - cbn [fold_left]. split; [by left|].
    intros [?|Hin]; [done|]. by apply elem_of_nil in Hin.
  - cbn [fold_left]. rewrite IH, dict_keys_set, elem_of_cons.
    case_decide; [|rewrite elem_of_app, list_elem_of_singleton].
    + split; [intros [?|?]; auto|]. intros [?|[->|?]]; auto.
    + tauto.
Qed.

End CalcProb.


Section CalcProbErrors.
Open Scope Qc_scope.
Context (cand_support_dict : list (string * Qc)).

Lemma calc_prob_loop_fails permutations ranking : ∀ table,
  ranking ∈ permutations →
  is_Ok (BradleyTerry.ranking_prob cand_support_dict ranking) = false →
  is_Ok (BradleyTerry.calc_prob_loop cand_support_dict permutations table)
  = false.
Proof.
  induction permutations as [|r permutations IH]; intros table Hin Hfail.
  - by apply elem_of_nil in Hin.
  - cbn [BradleyTerry.calc_prob_loop].
    destruct (BradleyTerry.ranking_prob cand_support_dict r) as [prob|e] eqn:Hr;
      [|done].
    cbn [mbind result_bind]. apply IH; [|done].
    apply elem_of_cons in Hin as [->|?]; [|done]. by rewrite Hr in Hfail.
Qed.

Lemma loop_j_positive g ranking supports prob :
  0 < g →
  Forall2 (fun c s => dict_get c cand_support_dict = Some s) ranking supports →
  Forall (fun s => 0 <= s) supports →
  is_Ok (BradleyTerry.loop_j cand_support_dict g ranking prob) = true.
Proof.
  intros Hg Hlook Hnonneg. rewrite (loop_j_ok _ g ranking supports); [done|done|].
  eapply Forall_impl; [exact Hnonneg|]. intros s Hs Heq.
  pose proof (Qcplus_pos_nonneg _ _ Hg Hs) as Hpos.
  rewrite Heq in Hpos. by apply Qclt_not_eq in Hpos.
Qed.

Lemma loop_i_zero_support ranking supports : ∀ prob,
  Forall2 (fun c s => dict_get c cand_support_dict = Some s) ranking supports →
  Forall (fun s => 0 <= s) supports →
  Exists (fun s => s = 0) supports →
  BradleyTerry.loop_i cand_support_dict ranking prob = Err ZeroDivisionError.
Proof.
  intros prob Hlook. revert prob.
  induction Hlook as [|c s ranking supports Hc Hlook IH]; intros prob Hnonneg Hzero.
  - by apply Exists_nil in Hzero.
  - apply Forall_cons in Hnonneg as [Hs Hnonneg].
    cbn [BradleyTerry.loop_i]. rewrite Hc. cbn [from_key mbind result_bind].
    destruct (decide (s = 0)) as [->|Hne].
    + cbn [BradleyTerry.loop_j]. rewrite Hc. cbn [from_key mbind result_bind].
      by rewrite decide_True by (by apply Qc_is_canon).
    + assert (Hpos : 0 < s).
      { apply Qcle_lt_or_eq in Hs as [?|Heq]; [done|]. by destruct Hne. }
      pose proof (loop_j_positive s (c :: ranking) (s :: supports) prob Hpos)
        as Hj.
      destruct (BradleyTerry.loop_j cand_support_dict s (c :: ranking) prob)
        as [prob'|e].
      * cbn [mbind result_bind]. apply IH; [done|].
        by apply Exists_cons in Hzero as [?|?].
      * discriminate Hj; by constructor.
Qed.

(** X15. A support of zero is not accepted: when all supports of a
    ranking are non-negative and one of them is 0, the division
    support / (support + support) of that candidate with itself raises
    [ZeroDivisionError], and [_calc_prob] returns no table for a list
    that holds the ranking. *)
Theorem calc_prob_zero_support permutations ranking supports :
  ranking ∈ permutations →
  Forall2 (fun c s => dict_get c cand_support_dict = Some s) ranking supports →
  Forall (fun s => 0 <= s) supports →
  Exists (fun s => s = 0) supports →
  BradleyTerry.ranking_prob cand_support_dict ranking = Err ZeroDivisionError
  ∧ is_Ok (BradleyTerry._calc_prob permutations cand_support_dict) = false.
Proof.
  intros Hin Hlook Hnonneg Hzero.
  assert (Hr : BradleyTerry.ranking_prob cand_support_dict ranking
               = Err ZeroDivisionError).
  { unfold BradleyTerry.ranking_prob.
    by rewrite (loop_i_zero_support ranking supports). }
  split; [done|]. unfold BradleyTerry._calc_prob.
  apply (calc_prob_loop_fails permutations ranking); [done|by rewrite Hr].
Qed.

Lemma loop_j_missing g ranking : ∀ prob,
  0 < g →
  Forall (fun c => match dict_get c cand_support_dict with
                   | Some s => 0 < s
                   | None => True
                   end) ranking →
  Exists (fun c => dict_get c cand_support_dict = None) ranking →
  BradleyTerry.loop_j cand_support_dict g ranking prob = Err KeyError.
Proof.
  intros prob Hg Hall. revert prob.
  induction Hall as [|c ranking Hc _ IH]; intros prob Hmissing.
  - by apply Exists_nil in Hmissing.
  - cbn [BradleyTerry.loop_j].
    destruct (dict_get c cand_support_dict) as [s|] eqn:Hget; [|done].
    cbn [from_key mbind result_bind].
    rewrite decide_False by (by apply pos_sum_nonzero).
    apply IH. apply Exists_cons in Hmissing as [Hnone|?]; [congruence|done].
Qed.

(** X16. When the supports that are given are positive and some
    candidate of a ranking has none, the ranking's probability raises
    [KeyError], and [_calc_prob] returns no table for a list that holds
    the ranking. *)
Theorem calc_prob_missing_support permutations ranking :
  ranking ∈ permutations →
  Forall (fun c => match dict_get c cand_support_dict with
                   | Some s => 0 < s
                   | None => True
                   end) ranking →
  Exists (fun c => dict_get c cand_support_dict = None) ranking →
  BradleyTerry.ranking_prob cand_support_dict ranking = Err KeyError
  ∧ is_Ok (BradleyTerry._calc_prob permutations cand_support_dict) = false.
Proof.
  intros Hin Hall Hmissing.
  assert (Hr : BradleyTerry.ranking_prob cand_support_dict ranking
               = Err KeyError).
  { unfold BradleyTerry.ranking_prob.
    destruct ranking as [|c ranking]; [by apply Exists_nil in Hmissing|].
    cbn [BradleyTerry.loop_i].
    destruct (dict_get c cand_support_dict) as [s|] eqn:Hget; [|done].
    cbn [from_key mbind result_bind].
    assert (Hs : 0 < s).
    { apply Forall_cons in Hall as [Hc _]. by rewrite Hget in Hc. }
    by rewrite (loop_j_missing s (c :: ranking) 1 Hs Hall Hmissing). }
  split; [done|]. unfold BradleyTerry._calc_prob.
  apply (calc_prob_loop_fails permutations ranking); [done|by rewrite Hr].
Qed.
End CalcProbErrors.

(** An instance: the support of b is 0. *)
Lemma calc_prob_zero_support_witness :
  BradleyTerry.ranking_prob [("a", 1%Qc); ("b", 0%Qc)] ["a"; "b"]
  = Err ZeroDivisionError
  ∧ is_Ok (BradleyTerry._calc_prob [["b"; "a"]; ["a"; "b"]]
             [("a", 1%Qc); ("b", 0%Qc)]) = false.
Proof.
  apply (calc_prob_zero_support [("a", 1%Qc); ("b", 0%Qc)]
           [["b"; "a"]; ["a"; "b"]] ["a"; "b"] [1%Qc; 0%Qc]).
  - apply list_elem_of_further, list_elem_of_here.
  - repeat constructor.
  - repeat constructor; by vm_compute.
  - apply Exists_cons_tl, Exists_cons_hd. reflexivity.
Defined.

(** An instance: c has no support. *)
Lemma calc_prob_missing_support_witness :
  BradleyTerry.ranking_prob [("a", 1%Qc); ("b", 1%Qc)] ["a"; "c"]
  = Err KeyError
  ∧ is_Ok (BradleyTerry._calc_prob [["a"; "b"]; ["a"; "c"]]
             [("a", 1%Qc); ("b", 1%Qc)]) = false.
Proof.
  apply (calc_prob_missing_support [("a", 1%Qc); ("b", 1%Qc)]
           [["a"; "b"]; ["a"; "c"]] ["a"; "c"]).
  - apply list_elem_of_further, list_elem_of_here.
  - repeat constructor.
  - apply Exists_cons_tl, Exists_cons_hd. reflexivity.
Defined.

(** ** BradleyTerry: the distribution the ballots are drawn from *)

Section Distribution.
Open Scope Qc_scope.
Context (cand_support_dict : list (string * Qc)).

Lemma py_sum_cons (x : Qc) (l : list Qc) :
  BradleyTerryDraws.py_sum (x :: l) = x + BradleyTerryDraws.py_sum l.
Proof.
  unfold BradleyTerryDraws.py_sum. cbn [foldl].
  assert (Hgen : ∀ a b, foldl Qcplus (a + b) l = a + foldl Qcplus b l).
  { induction l as [|y l IH]; intros a b; [done|].
    cbn [foldl]. rewrite <- IH. f_equal. ring. }
  rewrite <- Hgen. f_equal. ring.
Qed.

Lemma py_sum_scale (h : Qc) (l : list Qc) :
  BradleyTerryDraws.py_sum ((fun x => x * h) <$> l)
  = BradleyTerryDraws.py_sum l * h.
Proof.
  induction l as [|x l IH].
  - unfold BradleyTerryDraws.py_sum. simpl. ring.
  - rewrite fmap_cons, !py_sum_cons, IH. ring.
Qed.

Lemma py_sum_positive (l : list Qc) :
  l ≠ [] → Forall (fun x => 0 < x) l → 0 < BradleyTerryDraws.py_sum l.
Proof.
  intros Hne Hpos. destruct Hpos as [|x l Hx Hl]; [done|]. clear Hne.
  rewrite py_sum_cons. apply Qcplus_pos_nonneg; [done|].
  induction Hl as [|y l Hy _ IH]; [done|].
  rewrite py_sum_cons. apply Qclt_le_weak. by apply Qcplus_pos_nonneg.
Qed.

Lemma normalize_ok (l : list Qc) :
  BradleyTerryDraws.py_sum l ≠ 0 →
  BradleyTerryDraws.normalize l
  = Ok ((fun p => p / BradleyTerryDraws.py_sum l) <$> l).
Proof.
  intros Hne. unfold BradleyTerryDraws.normalize.
  assert (Hgen : ∀ (total : Qc) (k : list Qc), total ≠ 0 →
    result_mapM (fun p => if decide (total = 0)
                          then Err ZeroDivisionError
                          else Ok (p / total)) k
    = Ok ((fun p => p / total) <$> k)).
  { intros total k Htotal. induction k as [|p k IH]; [done|].
    cbn [result_mapM]. rewrite decide_False by done.
    cbn [mbind result_bind]. by rewrite IH. }
  by apply Hgen.
Qed.

Lemma half_power_positive (n : nat) : 0 < (/ 2) ^ n.
Proof.
  induction n as [|n IH]; [done|].
  cbn [Qcpower]. apply Qcmult_pos_pos; [|done]. by apply Qcinv_pos.
Qed.

Lemma spec_pairwise_positive (supports : list Qc) :
  Forall (fun s => 0 < s) supports → 0 < BradleyTerry.spec_pairwise supports.
Proof.
  induction 1 as [|s supports Hs Hall IH]; [done|].
  cbn [BradleyTerry.spec_pairwise]. apply Qcmult_pos_pos; [|done].
  clear IH. induction Hall as [|s' supports Hs' _ IH]; [done|].
  rewrite fmap_cons. cbn [foldr]. apply Qcmult_pos_pos; [|done].
  apply Qcmult_pos_pos; [done|]. by apply Qcinv_pos, Qcplus_pos_pos.
Qed.

Lemma dict_set_entries {K V} `{EqDecision K} (k k0 : K) (v v0 : V) d :
  (k0, v0) ∈ dict_set k v d → (k0, v0) ∈ d ∨ (k0 = k ∧ v0 = v).
Proof.
  induction d as [|[k' v'] d IH]; cbn [dict_set].
  - intros Hin. apply list_elem_of_singleton in Hin as [= -> ->]. by right.
  - destruct (decide (k = k')) as [->|Hne]; intros Hin.
    + apply elem_of_cons in Hin as [[= -> ->]|Hin]; [by right|].
      left. by apply list_elem_of_further.
    + apply elem_of_cons in Hin as [[= -> ->]|Hin];
        [left; apply list_elem_of_here|].
      destruct (IH Hin) as [?|?]; [left; by apply list_elem_of_further|by right].
Qed.

Lemma table_entries permutations : ∀ (table : list (list string * Qc)),
  (∀ r p, (r, p) ∈ table → p = halved_pairwise cand_support_dict r) →
  ∀ r p,
    (r, p) ∈ fold_left
               (fun t r => dict_set r (halved_pairwise cand_support_dict r) t)
               permutations table →
    p = halved_pairwise cand_support_dict r.
Proof.
  induction permutations as [|r' permutations IH]; intros table Hinv r p Hin;
    [by apply Hinv|].
  cbn [fold_left] in Hin. revert Hin. apply IH. intros r0 p0 Hin.
  apply dict_set_entries in Hin as [?|[-> ->]]; [by apply Hinv|done].
Qed.

Lemma bradley_terry_distribution_aux permutations (ballot_length : nat) :
  permutations ≠ [] →
  Forall (Forall (positive_support cand_support_dict)) permutations →
  Forall (fun r => length r = ballot_length) permutations →
  ∃ ranking_to_prob prob_distrib,
    BradleyTerry._calc_prob permutations cand_support_dict = Ok ranking_to_prob
    ∧ (∀ r, r ∈ dict_keys ranking_to_prob ↔ r ∈ permutations)
    ∧ BradleyTerryDraws.normalize (dict_values ranking_to_prob)
      = Ok prob_distrib
    ∧ BradleyTerryDraws.py_sum prob_distrib = 1
    ∧ prob_distrib
      = (fun r =>
           BradleyTerry.spec_pairwise (supports_of cand_support_dict r)
           / BradleyTerryDraws.py_sum
               ((fun r' => BradleyTerry.spec_pairwise
                             (supports_of cand_support_dict r'))
                  <$> dict_keys ranking_to_prob))
          <$> dict_keys ranking_to_prob.
Proof.
  intros Hne Hpos Hlen.
  set (table := fold_left
                  (fun t r => dict_set r (halved_pairwise cand_support_dict r) t)
                  permutations []).
  set (h := (/ 2) ^ ballot_length).
  set (spec := fun r => BradleyTerry.spec_pairwise (supports_of cand_support_dict r)).
  assert (Hkeys : ∀ r, r ∈ dict_keys table ↔ r ∈ permutations).
  { intros r. unfold table. rewrite table_keys.
    split; [intros [Hnil|?]; [|done]|by right]. by apply elem_of_nil in Hnil. }
  assert (Hentries : ∀ r p, (r, p) ∈ table → p = spec r * h).
  { intros r p Hin.
    assert (Hr : r ∈ permutations).
    { apply Hkeys, list_elem_of_fmap. by exists (r, p). }
    rewrite (table_entries permutations [] (fun r0 p0 H => False_ind _ (proj1 (elem_of_nil _) H)) r p Hin).
    unfold halved_pairwise, spec, h.
    by rewrite (proj1 (Forall_forall _ _) Hlen r Hr). }
  assert (Hvalues : dict_values table
                    = (fun x => x * h) <$> (spec <$> dict_keys table)).
  { unfold dict_values, dict_keys. rewrite <- !list_fmap_compose.
    apply list_fmap_ext. intros i [r p] Hi. apply list_elem_of_lookup_2 in Hi.
    by apply Hentries. }
  assert (Hh : 0 < h) by apply half_power_positive.
  assert (Hspecs : 0 < BradleyTerryDraws.py_sum (spec <$> dict_keys table)).
  { apply py_sum_positive.
    - destruct permutations as [|r0 permutations']; [done|].
      assert (Hr0 : r0 ∈ dict_keys table) by (apply Hkeys, list_elem_of_here).
      intros Hnil. apply fmap_nil_inv in Hnil. rewrite Hnil in Hr0.
      by apply elem_of_nil in Hr0.
    - apply Forall_fmap, Forall_forall. intros r Hr. apply Hkeys in Hr.
      apply spec_pairwise_positive, supports_of_lookup.
      by apply (proj1 (Forall_forall _ _) Hpos). }
  set (total := BradleyTerryDraws.py_sum (spec <$> dict_keys table)) in *.
  assert (Hsum : BradleyTerryDraws.py_sum (dict_values table) = total * h).
  { by rewrite Hvalues, py_sum_scale. }
  assert (Htotal : total ≠ 0) by (by apply not_eq_sym, Qclt_not_eq).
  assert (Hh0 : h ≠ 0) by (by apply not_eq_sym, Qclt_not_eq).
  assert (Hnz : total * h ≠ 0).
  { apply not_eq_sym, Qclt_not_eq. by apply Qcmult_pos_pos. }
  assert (Hprobs : (fun p => p / BradleyTerryDraws.py_sum (dict_values table))
                     <$> dict_values table
                   = (fun r => spec r / total) <$> dict_keys table).
  { rewrite Hsum, Hvalues, <- !list_fmap_compose.
    apply list_fmap_ext. intros i r _. simpl. by field. }
  exists table, ((fun r => spec r / total) <$> dict_keys table).
  split; [by apply calc_prob_loop_ok|]. split; [exact Hkeys|].
  split; [rewrite normalize_ok by (by rewrite Hsum); by rewrite Hprobs|].
  split; [|done].
  rewrite (list_fmap_compose spec (fun x => x / total)).
  change (fun x => x / total) with (fun x => x * / total).
  rewrite py_sum_scale. fold total. by field.
Qed.

End Distribution.


(** ** BradleyTerry.generate_ballots: the ballots of a bloc *)

Lemma positive_subset (cand_support_dict : list (string * Qc)) cands r rest :
  Forall (positive_support cand_support_dict) cands →
  r ++ rest ≡ₚ cands → Forall (positive_support cand_support_dict) r.
Proof.
  intros Hpos Hperm. apply Forall_forall. intros c Hc.
  apply (proj1 (Forall_forall _ _) Hpos). rewrite <- Hperm.
  apply elem_of_app. by left.
Qed.

Lemma lookups_in_range {A} (l : list A) (idx : list nat) :
  Forall (fun i => i ∈ seq 0 (length l)) idx →
  ∃ xs, result_mapM (fun i => from_index (l !! i)) idx = Ok xs
        ∧ length xs = length idx ∧ Forall (fun x => x ∈ l) xs.
Proof.
  induction 1 as [|i idx Hi _ (xs & Hxs & Hlen & Hall)].
  - by exists [].
  - apply elem_of_seq in Hi.
    destruct (lookup_lt_is_Some_2 l i) as [x Hx]; [lia|].
    exists (x :: xs). cbn [result_mapM]. rewrite Hx, Hxs.
    split_and!; [done|cbn [length]; by rewrite Hlen|].
    constructor; [by eapply list_elem_of_lookup_2|done].
Qed.



(** ** AlternatingCrossover: fractional rates and ballot length *)

(** X19. A crossover rate that is not an [int] makes generation fail:
    the count [crossover_rate * num_ballots_race] is then no [int]
    either and [range] rejects it, so when some bloc has an entry with
    such a rate [generate_ballots] never returns a profile, whatever
    the draws. *)
Theorem AlternatingCrossover_fractional_never_returns {G}
    (choice : list string → list Q → rand G string)
    (self : AlternatingCrossover.t) (slate opposing_slate : string)
    (crossover_dict : list (string * pynum)) (q : Q) :
  slate ∈ dict_keys (AlternatingCrossover.slate_voter_prop self) →
  dict_get slate (AlternatingCrossover.slate_crossover_rate self)
  = Some crossover_dict →
  opposing_slate ∈ dict_keys crossover_dict →
  dict_get opposing_slate crossover_dict = Some (PyFrac q) →
  ∀ g, is_Ok (AlternatingCrossover.generate_ballots choice self g) = false.
Proof.
  intros Hslate Hrates Hopp Hq.
  assert (Hpairing : ∀ num pref g,
    is_Ok (AlternatingCrossover.draw_pairing choice self slate num
             crossover_dict pref opposing_slate g) = false).
  { intros num pref g. unfold AlternatingCrossover.draw_pairing.
    rewrite (rand_bind_lift_ok _ _ _ (PyFrac q)) by (by rewrite Hq).
    destruct (dict_get opposing_slate (AlternatingCrossover.slate_to_candidate self))
      as [opp|]; [|done].
    rewrite (rand_bind_lift_ok _ _ _ opp) by done.
    destruct (dict_get slate (AlternatingCrossover.slate_to_candidate self))
      as [bloc|]; [|done].
    by rewrite (rand_bind_lift_ok _ _ _ bloc) by done. }
  assert (Hdraw : ∀ g,
    is_Ok (AlternatingCrossover.draw_slate choice self slate g) = false).
  { intros g. unfold AlternatingCrossover.draw_slate.
    destruct (dict_get slate (AlternatingCrossover.slate_voter_prop self))
      as [prop|]; [|done].
    rewrite (rand_bind_lift_ok _ _ _ prop) by done.
    rewrite (rand_bind_lift_ok _ _ _ crossover_dict) by (by rewrite Hrates).
    destruct (dict_get slate (AlternatingCrossover.pref_interval_by_slate self))
      as [pref|]; [|done].
    rewrite (rand_bind_lift_ok _ _ _ pref) by done.
    by apply (rand_for_fails _ _ opposing_slate). }
  intros g.
  unfold AlternatingCrossover.generate_ballots, AlternatingCrossover.ballot_pool.
  unfold rand_bind at 1. unfold rand_bind at 1.
  pose proof (rand_for_fails (AlternatingCrossover.draw_slate choice self) _
                slate Hslate Hdraw g) as Hfor.
  by destruct (rand_for _ _ g) as [[per_slate g1]|e].
Qed.

(** An instance: a bloc with the rates 0.5 and 0.5. *)
Lemma AlternatingCrossover_fractional_never_returns_witness :
  is_Ok (AlternatingCrossover.generate_ballots Sample.choice_head
           (Sample.crossover [("A", PyFrac (1 # 2)); ("B", PyFrac (1 # 2))]) tt)
  = false.
Proof.
  apply (AlternatingCrossover_fractional_never_returns Sample.choice_head
           (Sample.crossover [("A", PyFrac (1 # 2)); ("B", PyFrac (1 # 2))])
           "A" "B" [("A", PyFrac (1 # 2)); ("B", PyFrac (1 # 2))] (1 # 2)).
  - apply list_elem_of_here.
  - reflexivity.
  - apply list_elem_of_further, list_elem_of_here.
  - reflexivity.
Defined.

Lemma rand_for_inv {G A B} (P : B → Prop) (body : A → rand G B) xs :
  (∀ x g b g', body x g = Ok (b, g') → P b) →
  ∀ g bs g', rand_for xs body g = Ok (bs, g') → Forall P bs.
Proof.
  intros Hbody. induction xs as [|x xs IH]; intros g bs g' Hfor.
  - injection Hfor as <- _. constructor.
  - cbn [rand_for] in Hfor. unfold rand_bind at 1 in Hfor.
    destruct (body x g) as [[b g1]|e] eqn:Hb; [|done].
    unfold rand_bind at 1 in Hfor.
    destruct (rand_for xs body g1) as [[bs' g2]|e] eqn:Hbs; [|done].
    injection Hfor as <- _. constructor; [by eapply Hbody|by eapply IH].
Qed.

Lemma crossover_draws_length {G} (choice : list string → list Q → rand G string)
    self slate opposing_slate pref n : ∀ cands g drawn g',
  AlternatingCrossover.draws choice self slate opposing_slate pref n cands g
  = Ok (drawn, g') →
  Forall (fun ballot =>
            (length ballot
             ≤ Ballot_Generator.ballot_length (AlternatingCrossover.base self))%nat)
         drawn.
Proof.
  induction n as [|n IH]; intros cands g drawn g' Hdraws.
  - injection Hdraws as <- _. constructor.
  - cbn [AlternatingCrossover.draws] in Hdraws. unfold rand_bind at 1 in Hdraws.
    destruct (AlternatingCrossover.draw _ _ _ _ _ cands g)
      as [[[ballot cands'] g1]|e] eqn:Hdraw; [|done].
    unfold rand_bind at 1 in Hdraws. cbn [fst snd] in Hdraws.
    destruct (AlternatingCrossover.draws _ _ _ _ _ n cands' g1)
      as [[rest g2]|e] eqn:Hrest; [|done].
    injection Hdraws as <- _. constructor; [|by eapply IH].
    destruct cands as [bloc opp]. unfold AlternatingCrossover.draw in Hdraw.
    unfold rand_bind, lift, rand_ret in Hdraw.
    repeat match type of Hdraw with
           | match ?r with _ => _ end = _ => destruct r as [[]|]; try done
           | match ?r with _ => _ end = _ => destruct r; try done
           end.
    injection Hdraw as <- _ _. unfold AlternatingCrossover.make_ballot.
    rewrite length_take. lia.
Qed.

(** X20. Whatever the draws, no ballot that AlternatingCrossover puts
    into the pool has more than [ballot_length] candidates. *)
Theorem AlternatingCrossover_ballot_length {G}
    (choice : list string → list Q → rand G string)
    (self : AlternatingCrossover.t) (g : G) pool (g' : G) :
  AlternatingCrossover.ballot_pool choice self g = Ok (pool, g') →
  Forall (fun ballot =>
            (length ballot
             ≤ Ballot_Generator.ballot_length (AlternatingCrossover.base self))%nat)
         pool.
Proof.
  unfold AlternatingCrossover.ballot_pool, rand_bind, rand_ret. intros Hpool.
  destruct (rand_for _ _ g) as [[per_slate g1]|e] eqn:Hfor; [|done].
  injection Hpool as <- _.
  apply Forall_concat, Forall_concat.
  revert Hfor. apply rand_for_inv. intros slate g0 groups g2.
  unfold AlternatingCrossover.draw_slate, rand_bind, lift.
  destruct (from_key (dict_get slate _)) as [prop|]; [|done].
  destruct (from_key (dict_get slate _)) as [crossover_dict|]; [|done].
  destruct (from_key (dict_get slate _)) as [pref|]; [|done].
  apply rand_for_inv. intros opposing_slate g3 drawn g4.
  unfold AlternatingCrossover.draw_pairing, rand_bind, lift.
  destruct (from_key (dict_get opposing_slate crossover_dict)) as [rate|]; [|done].
  destruct (from_key (dict_get opposing_slate _)) as [opp|]; [|done].
  destruct (from_key (dict_get slate _)) as [bloc|]; [|done].
  destruct (py_range _) as [n|]; [|done].
  apply crossover_draws_length.
Qed.

(** An instance: a bloc of 4 ballots with the rates 1 and 1, over one
    candidate. *)
Lemma AlternatingCrossover_ballot_length_witness :
  Forall (fun ballot => (length ballot ≤ 1)%nat)
         [["a"]; ["a"]; ["a"]; ["a"]; ["a"]; ["a"]; ["a"]; ["a"]].
Proof.
  apply (AlternatingCrossover_ballot_length Sample.choice_head
           (Sample.crossover [("A", PyInt 1); ("B", PyInt 1)]) tt _ tt).
  reflexivity.
Defined.

(** ** OneDimSpatial: sorting by arrays *)

Lemma array_lt_not_single (a b : list Q) :
  length b ≠ 1%nat → OneDimSpatial.array_lt a b = Err ValueError.
Proof.
  intros Hb. unfold OneDimSpatial.array_lt.
  destruct a as [|x [|x' a]]; [done| |done].
  by destruct b as [|y [|y' b]].
Qed.

Lemma array_lt_cases (a b : list Q) :
  OneDimSpatial.array_lt a b = Err ValueError
  ∨ ∃ less, OneDimSpatial.array_lt a b = Ok less.
Proof.
  unfold OneDimSpatial.array_lt.
  destruct a as [|x [|x' a]]; [by left| |by left].
  destruct b as [|y [|y' b]]; [by left|right; by eexists|by left].
Qed.

Lemma insert_by_cases c v sorted :
  OneDimSpatial.insert_by c v sorted = Err ValueError
  ∨ ∃ sorted', OneDimSpatial.insert_by c v sorted = Ok sorted'
               ∧ length sorted' = S (length sorted).
Proof.
  induction sorted as [|[c' v'] sorted IH]; [right; by eexists|].
  cbn [OneDimSpatial.insert_by].
  destruct (array_lt_cases v' v) as [->|[less ->]]; [by left|].
  cbn [mbind result_bind]. destruct less; [|right; by eexists].
  destruct IH as [->|(sorted' & -> & Hlen)]; [by left|].
  right. eexists. split; [done|]. cbn [length]. by rewrite Hlen.
Qed.

Lemma sort_items_cases items :
  OneDimSpatial.sort_items items = Err ValueError
  ∨ ∃ sorted, OneDimSpatial.sort_items items = Ok sorted
              ∧ length sorted = length items.
Proof.
  induction items as [|[c v] items IH]; [right; by eexists|].
  cbn [OneDimSpatial.sort_items].
  destruct IH as [->|(sorted & -> & Hlen)]; [by left|].
  cbn [mbind result_bind].
  destruct (insert_by_cases c v sorted) as [->|(sorted' & -> & Hlen')];
    [by left|].
  right. eexists. split; [done|]. cbn [length]. by rewrite Hlen', Hlen.
Qed.

(** Two or more keys whose values are not arrays of one element cannot
    be sorted. *)
Lemma sort_items_arrays items :
  (2 ≤ length items)%nat →
  Forall (fun cv => length (snd cv) ≠ 1%nat) items →
  OneDimSpatial.sort_items items = Err ValueError.
Proof.
  intros Hlen Hall. destruct items as [|[c v] items]; [simpl in Hlen; lia|].
  apply Forall_cons in Hall as [Hv _]. cbn [OneDimSpatial.sort_items].
  destruct (sort_items_cases items) as [->|(sorted & -> & Hsorted)]; [done|].
  cbn [mbind result_bind].
  destruct sorted as [|[c' v'] sorted]; [simpl in *; lia|].
  cbn [OneDimSpatial.insert_by]. by rewrite array_lt_not_single.
Qed.

Lemma candidate_positions_spec {G} (normal : Q → Q → Z → rand G (list Q))
    (n : Z) (m : nat) cands :
  (∀ g, ∃ arr g', normal 1%Q 0%Q n g = Ok (arr, g') ∧ length arr = m) →
  ∀ d g,
    Forall (fun cv => length (snd cv) = m) d →
    ∃ d' g',
      OneDimSpatial.candidate_positions normal n cands d g = Ok (d', g')
      ∧ Forall (fun cv => length (snd cv) = m) d'
      ∧ ∀ c, c ∈ dict_keys d ∨ c ∈ cands → c ∈ dict_keys d'.
Proof.
  intros Hnormal. induction cands as [|c cands IH]; intros d g Hd.
  - exists d, g. split_and!; [done|done|].
    intros c [?|Hin]; [done|by apply elem_of_nil in Hin].
  - destruct (Hnormal g) as (arr & g1 & Harr & Hlen).
    destruct (IH (dict_set c arr d) g1) as (d' & g' & Hpos & Hlens & Hkeys).
    { apply Forall_forall. intros [c0 v0] Hin.
      apply dict_set_entries in Hin as [Hin|[-> ->]]; [|done].
      by apply (proj1 (Forall_forall _ _) Hd (c0, v0)). }
    exists d', g'. cbn [OneDimSpatial.candidate_positions].
    rewrite (rand_bind_ok _ _ _ _ _ Harr). split_and!; [done|done|].
    intros c0 Hc0. apply Hkeys. rewrite dict_keys_set.
    destruct Hc0 as [Hc0|Hc0].
    + left. case_decide; [done|]. apply elem_of_app. by left.
    + apply elem_of_cons in Hc0 as [->|?]; [left|by right].
      case_decide; [done|]. apply elem_of_app. right. apply list_elem_of_here.
Qed.

Lemma two_keys {V} (d : list (string * V)) c1 c2 :
  c1 ∈ dict_keys d → c2 ∈ dict_keys d → c1 ≠ c2 → (2 ≤ length d)%nat.
Proof.
  unfold dict_keys. intros H1 H2 Hne.
  destruct d as [|[k v] [|e d]]; cbn [length]; [|exfalso|lia].
  - by apply elem_of_nil in H1.
  - apply list_elem_of_singleton in H1, H2. simpl in *. congruence.
Qed.

(** X21. With two different candidates and at least one voter,
    OneDimSpatial raises [ValueError] before it reaches the fold: every
    candidate's position is an array of [len(candidates)] numbers (here
    [normal] is assumed to return as many numbers as it is asked for),
    and sorting the candidates by their distances compares arrays. *)
Theorem OneDimSpatial_arrays_not_sorted {G}
    (normal : Q → Q → Z → rand G (list Q)) (self : Ballot_Generator.t)
    (c1 c2 : string) :
  c1 ∈ Ballot_Generator.candidates self →
  c2 ∈ Ballot_Generator.candidates self →
  c1 ≠ c2 →
  (0 < Ballot_Generator.number_of_ballots self)%Z →
  (∀ size g, (0 ≤ size)%Z →
     ∃ arr g', normal 1%Q 0%Q size g = Ok (arr, g')
               ∧ length arr = Z.to_nat size) →
  ∀ g, OneDimSpatial.ballot_pool normal self g = Err ValueError
       ∧ OneDimSpatial.generate_ballots normal self g = Err ValueError.
Proof.
  intros Hc1 Hc2 Hne Hn Hnormal g.
  set (cands := Ballot_Generator.candidates self) in *.
  assert (Hm : (2 ≤ length cands)%nat).
  { rewrite <- (length_fmap (fun c => (c, ())) cands).
    apply (two_keys ((fun c => (c, ())) <$> cands) c1 c2); [| |done].
    - unfold dict_keys. rewrite <- list_fmap_compose. by rewrite list_fmap_id.
    - unfold dict_keys. rewrite <- list_fmap_compose. by rewrite list_fmap_id. }
  assert (Hpool : OneDimSpatial.ballot_pool normal self g = Err ValueError).
  { unfold OneDimSpatial.ballot_pool. fold cands.
    destruct (candidate_positions_spec normal (Z.of_nat (length cands))
                (length cands) cands) with (d := @nil (string * list Q)) (g := g)
      as (d & g1 & Hd & Hlens & Hkeys).
    { intros g0. destruct (Hnormal (Z.of_nat (length cands)) g0) as (arr & g' & ? & Hlen);
        [lia|]. exists arr, g'. split; [done|]. by rewrite Hlen, Nat2Z.id. }
    { constructor. }
    rewrite (rand_bind_ok _ _ _ _ _ Hd).
    destruct (Hnormal (Ballot_Generator.number_of_ballots self) g1)
      as (voters & g2 & Hvoters & Hvlen); [lia|].
    rewrite (rand_bind_ok _ _ _ _ _ Hvoters).
    destruct voters as [|vp voters]; [simpl in Hvlen; lia|].
    unfold lift. cbn [result_mapM].
    assert (Hrank : OneDimSpatial.voter_ranking d vp = Err ValueError).
    { unfold OneDimSpatial.voter_ranking, OneDimSpatial.sorted_by_value.
      rewrite sort_items_arrays; [done| |].
      - rewrite length_map. apply (two_keys d c1 c2); [| |done].
        + apply Hkeys. by right.
        + apply Hkeys. by right.
      - change (map ?f ?l) with (f <$> l). apply Forall_fmap.
        eapply Forall_impl; [exact Hlens|]. intros [c v] Hv. simpl in *.
        rewrite length_map, Hv. lia. }
    by rewrite Hrank. }
  split; [done|]. unfold OneDimSpatial.generate_ballots.
  by apply rand_bind_err.
Qed.

(** An instance: one voter, the candidates a and b. *)
Lemma OneDimSpatial_arrays_not_sorted_witness :
  OneDimSpatial.ballot_pool Sample.normal_mean Sample.two_candidates tt
  = Err ValueError
  ∧ OneDimSpatial.generate_ballots Sample.normal_mean Sample.two_candidates tt
    = Err ValueError.
Proof.
  apply (OneDimSpatial_arrays_not_sorted Sample.normal_mean
           Sample.two_candidates "a" "b").
  - apply list_elem_of_here.
  - apply list_elem_of_further, list_elem_of_here.
  - done.
  - reflexivity.
  - intros size g _. eexists _, _. split; [reflexivity|apply length_replicate].
Defined.
